(** * A Markov-chain text generator (main.c): model and verification

    The program reads whitespace-delimited words from a file, records in a
    hash table which word followed each window of [NPREF] words, and then
    prints a random walk over that table.

    Modelling conventions.
    - A C string is a [string]: the bytes before the terminating NUL.
    - [unsigned int] is 32 bits wide; its arithmetic wraps modulo [2^32].
    - [statetab] is a list of [HASHSIZE] collision chains; a chain is the
      list of the [State] nodes reached through the [next] pointers, and a
      suffix list is the list of words reached through [Suffix.next].
    - A [State *] is a pair (bucket, position in the chain of that bucket).
    - [malloc] does not fail (a failure exits the process), and the [int]
      counters of [generate] do not overflow.
    - [rand] is a stream of non-negative draws; the state of the generator
      is the number of draws taken so far. *)

From Stdlib Require Import ZArith Ascii String List Lia Bool.
From stdpp Require Import base option list strings.
Import ListNotations.

Local Open Scope Z_scope.

(** ** Constants *)

Definition NPREF : nat := 2.
Definition MAX_WORD : nat := 100.
Definition HASHSIZE : Z := 4093.
Definition NONWORD : string := String "010"%char EmptyString.

Definition UINT_MOD : Z := 2 ^ 32.

(** ** Data *)

(** [struct State]: the prefix words and the suffix list; the [next] field
    is the tail of the chain the node sits in. *)
Record State : Type := mkState {
  prefix : list string;
  suffixes : list string
}.

(** [State *statetab[HASHSIZE]]. *)
Abbreviation Table := (list (list State)).

(** A non-null [State *]. *)
Abbreviation StatePtr := (nat * nat)%type.

Definition statetab0 : Table := replicate (Z.to_nat HASHSIZE) [].

(** The chain hanging off bucket [h]. *)
Definition bucket (tab : Table) (h : nat) : list State :=
  default [] (tab !! h).

(** Dereferencing a [State *]. *)
Definition get (tab : Table) (ptr : StatePtr) : option State :=
  tab !! ptr.1 ≫= λ chain, chain !! ptr.2.

(** [s[i]] for an array of [NPREF] strings. *)
Definition word_at (s : list string) (i : nat) : string :=
  default EmptyString (s !! i).

(** ** String primitives *)

Definition uchar (c : ascii) : Z := Z.of_N (N_of_ascii c).

(** [strcmp]: only the sign of the result is specified. *)
Fixpoint strcmp (a b : string) : Z :=
  match a, b with
  | EmptyString, EmptyString => 0
  | EmptyString, String _ _ => -1
  | String _ _, EmptyString => 1
  | String c a', String d b' =>
      if (uchar c =? uchar d) then strcmp a' b'
      else if (uchar c <? uchar d) then -1 else 1
  end.

(** [strdup_safe]: a fresh copy holding the same bytes. *)
Definition strdup_safe (s : string) : string := s.
Arguments strdup_safe _ /.

(** ** hash *)

(** The inner loop of [hash]: [h = h * 31 + (unsigned char)*p]. *)
Fixpoint hash_str (h : Z) (s : string) : Z :=
  match s with
  | EmptyString => h
  | String c s' => hash_str ((h * 31 + uchar c) mod UINT_MOD) s'
  end.

Definition hash (s : list string) : Z :=
  fold_left (fun h i => hash_str h (word_at s i)) (seq 0 NPREF) 0 mod HASHSIZE.

(** ** lookup *)

(** The inner loop of [lookup]: the value of [i] when the loop is left. *)
Fixpoint cmp_from (fuel i : nat) (a b : list string) : nat :=
  match fuel with
  | O => i
  | S k =>
      if (strcmp (word_at a i) (word_at b i) =? 0) then cmp_from k (S i) a b
      else i
  end.

Definition prefix_scan (a b : list string) : nat := cmp_from NPREF 0 a b.

(** The outer loop of [lookup]: walk the chain, [j] nodes already passed. *)
Fixpoint scan_chain (p : list string) (chain : list State) (j : nat) : option nat :=
  match chain with
  | [] => None
  | sp :: rest =>
      if Nat.eqb (prefix_scan p (prefix sp)) NPREF then Some j
      else scan_chain p rest (S j)
  end.

Definition new_state (p : list string) : State :=
  {| prefix := map (fun i => strdup_safe (word_at p i)) (seq 0 NPREF);
     suffixes := [] |}.

Definition lookup (p : list string) (create : bool) (tab : Table)
  : option StatePtr * Table :=
  let h := Z.to_nat (hash p) in
  match scan_chain p (bucket tab h) 0 with
  | Some j => (Some (h, j), tab)
  | None =>
      if create then (Some (h, O), <[h := new_state p :: bucket tab h]> tab)
      else (None, tab)
  end.

(** ** add_suffix, add *)

Definition push_suffix (suffix : string) (sp : State) : State :=
  {| prefix := prefix sp; suffixes := strdup_safe suffix :: suffixes sp |}.

Definition add_suffix (sp : StatePtr) (suffix : string) (tab : Table) : Table :=
  alter (alter (push_suffix suffix) sp.2) sp.1 tab.

(** [memmove(prefix, prefix + 1, ...); prefix[NPREF - 1] = suffix]. *)
Definition slide (p : list string) (suffix : string) : list string :=
  take (NPREF - 1) (drop 1 p) ++ [suffix].

(** [add] works on the caller's window and on the table. With [create]
    set, [lookup] never returns [NULL]. *)
Definition add (st : list string * Table) (suffix : string)
  : list string * Table :=
  let '(sp, tab1) := lookup st.1 true st.2 in
  match sp with
  | Some ptr => (slide st.1 suffix, add_suffix ptr suffix tab1)
  | None => (slide st.1 suffix, tab1)
  end.

(** ** Reading words: fscanf(f, "%99s", buf) *)

(** A [FILE *] opened for reading: the bytes not yet consumed. *)
Abbreviation FILE := (list ascii).

(** [isspace] in the C locale: space, and \t \n \v \f \r. *)
Definition isspace (c : ascii) : bool :=
  (uchar c =? 32) || ((9 <=? uchar c) && (uchar c <=? 13)).

Fixpoint skip_space (f : FILE) : FILE :=
  match f with
  | [] => []
  | c :: f' => if isspace c then skip_space f' else f
  end.

(** At most [width] bytes, up to the next white space. *)
Fixpoint scan_word (width : nat) (f : FILE) : list ascii * FILE :=
  match width, f with
  | S w, c :: f' =>
      if isspace c then ([], f)
      else let '(buf, rest) := scan_word w f' in (c :: buf, rest)
  | _, _ => ([], f)
  end.

(** [None] is [EOF]: the input ended before a word began. *)
Definition fscanf_s (f : FILE) : option (list ascii * FILE) :=
  match skip_space f with
  | [] => None
  | f1 => Some (scan_word (MAX_WORD - 1) f1)
  end.

(** The C string held in a buffer: the bytes before the first NUL. *)
Fixpoint c_str (buf : list ascii) : string :=
  match buf with
  | [] => EmptyString
  | c :: buf' => if (uchar c =? 0) then EmptyString else String c (c_str buf')
  end.

(** ** build *)

(** The [while] loop of [build]; every pass consumes at least one byte, so
    [length f] passes are enough to reach [EOF]. *)
Fixpoint build_loop (fuel : nat) (f : FILE) (st : list string * Table)
  : list string * Table :=
  match fuel with
  | O => st
  | S k =>
      match fscanf_s f with
      | None => st
      | Some (buf, f') => build_loop k f' (add st (strdup_safe (c_str buf)))
      end
  end.

Definition start_prefix : list string := repeat NONWORD NPREF.

Definition build (f : FILE) (tab : Table) : Table :=
  (add (build_loop (length f) f (start_prefix, tab)) NONWORD).2.

(** The words the loop of [build] reads, in order. *)
Fixpoint read_words (fuel : nat) (f : FILE) : list string :=
  match fuel with
  | O => []
  | S k =>
      match fscanf_s f with
      | None => []
      | Some (buf, f') => strdup_safe (c_str buf) :: read_words k f'
      end
  end.

Definition tokens (f : FILE) : list string := read_words (length f) f.

(** The state of [build] after the words [ts] have been added. *)
Definition train (ts : list string) (st : list string * Table)
  : list string * Table :=
  fold_left add ts st.

(** The value of the variable [prefix] of [build] just before the [i]-th
    word is read (and, for [i = length ts], when the stream has ended). *)
Definition window_at (ts : list string) (i : nat) : list string :=
  (train (take i ts) (start_prefix, statetab0)).1.

(** ** generate *)

Inductive Status : Type :=
| Running
| StoppedByMissingEntry
| StoppedByEmptyBag
| StoppedBySentinel
| StoppedByLengthLimit.

(** The variables of [generate], the number of [rand] calls made, the words
    printed so far, and the number of loop bodies entered. *)
Record GenState : Type := mkGen {
  g_i : Z;
  g_prefix : list string;
  g_draws : nat;
  g_out : list string;
  g_iters : nat;
  g_status : Status
}.

Definition stop (s : GenState) (why : Status) (entered : nat) : GenState :=
  {| g_i := g_i s; g_prefix := g_prefix s; g_draws := g_draws s;
     g_out := g_out s; g_iters := g_iters s + entered; g_status := why |}.

(** The suffix list behind a pointer returned by [lookup]. *)
Definition suffixes_at (tab : Table) (ptr : StatePtr) : list string :=
  match get tab ptr with
  | Some sp => suffixes sp
  | None => []
  end.

(** [suf = sp->suffixes; for (j = 0; j < r; j++) suf = suf->next; suf->word]. *)
Definition select (sufs : list string) (r : nat) : string :=
  match drop r sufs with
  | w :: _ => w
  | [] => EmptyString
  end.

(** The state after a pass that drew [NONWORD]: [break] before [printf]. *)
Definition sentinel_state (s : GenState) : GenState :=
  {| g_i := g_i s; g_prefix := g_prefix s; g_draws := S (g_draws s);
     g_out := g_out s; g_iters := g_iters s + 1; g_status := StoppedBySentinel |}.

(** The state after a pass that printed [w] and moved the window. *)
Definition emit_state (s : GenState) (w : string) : GenState :=
  {| g_i := g_i s + 1;
     g_prefix := <[1%nat := w]> (<[0%nat := word_at (g_prefix s) 1]> (g_prefix s));
     g_draws := S (g_draws s); g_out := g_out s ++ [w];
     g_iters := g_iters s + 1; g_status := Running |}.

(** One evaluation of the loop condition and, when it holds, of the body. *)
Definition gen_step (tab : Table) (nwords : Z) (rand : nat -> nat)
  (s : GenState) : GenState :=
  if negb (g_i s <? nwords) then stop s StoppedByLengthLimit 0
  else
    match (lookup (g_prefix s) false tab).1 with
    | None => stop s StoppedByMissingEntry 1
    | Some ptr =>
        let sufs := suffixes_at tab ptr in
        let n := length sufs in
        if Nat.eqb n 0 then stop s StoppedByEmptyBag 1
        else
          let r := (rand (g_draws s) mod n)%nat in
          let w := select sufs r in
          if (strcmp w NONWORD =? 0) then sentinel_state s
          else emit_state s w
    end.

(** The loop of [generate], run for at most [fuel] evaluations of its
    condition. *)
Fixpoint gen_run (fuel : nat) (tab : Table) (nwords : Z) (rand : nat -> nat)
  (s : GenState) : GenState :=
  match fuel with
  | O => s
  | S k =>
      match g_status s with
      | Running => gen_run k tab nwords rand (gen_step tab nwords rand s)
      | _ => s
      end
  end.

(** The state on entry to the loop. *)
Definition gen_init : GenState :=
  {| g_i := 0; g_prefix := start_prefix; g_draws := 0; g_out := [];
     g_iters := 0; g_status := Running |}.

(** [nwords] bodies and one last failing test of the loop condition. *)
Definition generate (nwords : Z) (rand : nat -> nat) (tab : Table) : GenState :=
  gen_run (S (Z.to_nat nwords)) tab nwords rand gen_init.

(** What [generate] writes to standard output. *)
Definition stdout_text (out : list string) : string :=
  fold_right (fun w acc => w +:+ " " +:+ acc) NONWORD out.

(** A file holding the bytes of [s]. *)
Definition file_of (s : string) : FILE := list_ascii_of_string s.

(** The words of the golden scenario. *)
Definition golden : list string := ["the"; "quick"; "fox"; "the"; "lazy"; "fox"]%string.

(** ** Invariants and the vocabulary of the statements *)

(** Every node sits in the bucket of its prefix's hash, has [NPREF]
    prefix words, and no chain holds a prefix twice. *)
Record table_ok (tab : Table) : Prop := {
  ok_len : length tab = Z.to_nat HASHSIZE;
  ok_hash : forall ptr sp, get tab ptr = Some sp ->
    Z.to_nat (hash (prefix sp)) = ptr.1 /\ length (prefix sp) = NPREF;
  ok_uniq : forall h j1 j2 sp1 sp2,
    get tab (h, j1) = Some sp1 -> get tab (h, j2) = Some sp2 ->
    prefix sp1 = prefix sp2 -> j1 = j2
}.

(** [sp] is a node of the table. *)
Definition stored (tab : Table) (sp : State) : Prop :=
  exists ptr, get tab ptr = Some sp.

(** The suffixes passed to [add] together with the window [p], in call
    order. *)
Definition recorded (p : list string) (calls : list (list string * string))
  : list string :=
  (filter (fun c => c.1 = p) calls).*2.

(** The table holds what the calls [calls] of [add] put into it: a node
    for every window passed, and under it the suffixes passed with that
    window, latest first. *)
Record rep (tab : Table) (calls : list (list string * string)) : Prop := {
  rep_ok : table_ok tab;
  rep_sufs : forall sp, stored tab sp ->
    suffixes sp = rev (recorded (prefix sp) calls) /\ prefix sp ∈ calls.*1;
  rep_has : forall p, p ∈ calls.*1 -> exists sp, stored tab sp /\ prefix sp = p
}.

(** The calls of [add] made for the words [ts] from the window [w]. *)
Fixpoint calls_from (w : list string) (ts : list string)
  : list (list string * string) :=
  match ts with
  | [] => []
  | t :: ts' => (w, t) :: calls_from (slide w t) ts'
  end.

(** The calls of [add] made by [build] on the words [ts]: every word with
    the window it was read under, then the final [NONWORD]. *)
Definition build_log (ts : list string) : list (list string * string) :=
  zip (window_at ts <$> seq 0 (S (length ts))) (ts ++ [NONWORD]).

(** The word a pass draws from the suffix list behind [ptr]. *)
Definition drawn (tab : Table) (rand : nat -> nat) (s : GenState) (ptr : StatePtr)
  : string :=
  select (suffixes_at tab ptr)
         (rand (g_draws s) mod length (suffixes_at tab ptr))%nat.

(** What holds of every state of a run of [generate nwords]. *)
Definition gen_inv (nwords : Z) (s : GenState) : Prop :=
  Z.of_nat (length (g_out s)) = g_i s /\
  (NONWORD ∉ g_out s) /\
  match g_status s with
  | Running =>
      Z.of_nat (g_iters s) = g_i s /\ Z.of_nat (g_draws s) = g_i s /\
      g_i s <= Z.max 0 nwords
  | StoppedByLengthLimit =>
      Z.of_nat (g_iters s) = g_i s /\ g_i s <= Z.max 0 nwords
  | _ => Z.of_nat (g_iters s) = g_i s + 1 /\ g_i s < nwords
  end.

(** The suffix list the table holds for the window [p], read through
    [lookup] without creation. *)
Definition bag_of (tab : Table) (p : list string) : option (list string) :=
  match (lookup p false tab).1 with
  | Some ptr => suffixes <$> get tab ptr
  | None => None
  end.

(** The terminal states of the loop of [generate]. *)
Definition is_stopped (st : Status) : bool :=
  match st with
  | Running => false
  | _ => true
  end.

(** A table with one fresh node, for the prefix (x, y), and the pointer
    [lookup] returns for it. *)
Definition fresh_xy : Table := (lookup ["x"; "y"]%string true statetab0).2.

Definition ptr_xy : StatePtr := (Z.to_nat (hash ["x"; "y"]%string), O).

(** The table [build] leaves for the words of the golden scenario. *)
Definition golden_tab : Table :=
  (train (golden ++ [NONWORD]) (start_prefix, statetab0)).2.

(** A byte that [fscanf] stores in a word and that the C string keeps:
    neither white space nor NUL. *)
Definition word_byte (c : ascii) : Prop := isspace c = false /\ uchar c <> 0.

(** A word as [build] can read it back whole: at least one byte, at most
    [MAX_WORD - 1], all of them word bytes. *)
Definition wordlike (w : string) : Prop :=
  w <> EmptyString /\
  (length (list_ascii_of_string w) <= MAX_WORD - 1)%nat /\
  Forall word_byte (list_ascii_of_string w).

(** What holds of every state of a run of [generate nwords] on the table
    [build] leaves for the words [ts]: the window is the last [NPREF] words
    printed and is a window [build] has seen, every word was printed under
    a window it followed in the input, and the run has stopped neither for
    a missing node nor for an empty suffix list. *)
Definition gen_ok (ts : list string) (nwords : Z) (s : GenState) : Prop :=
  g_prefix s = fold_left slide (g_out s) start_prefix /\
  (exists i, (i <= length ts)%nat /\ g_prefix s = window_at ts i) /\
  (forall c, c ∈ calls_from start_prefix (g_out s) -> c ∈ build_log ts) /\
  g_status s <> StoppedByMissingEntry /\
  g_status s <> StoppedByEmptyBag /\
  (g_status s = StoppedBySentinel -> g_prefix s = window_at ts (length ts)) /\
  (g_status s = StoppedByLengthLimit -> nwords <= g_i s).

(** ** main *)

(** What a run of the program leaves: the value returned by [main] and the
    text written to the standard output and to the standard error. *)
Record Outcome : Type := mkOutcome {
  exit_status : Z;
  out_stream : string;
  err_stream : string
}.

Section Main.
(** The C library and the world of the process: [atoi]; the bytes of the
    file a path opens for reading, if it opens; the message [perror]
    appends for a path that does not open; the value of [time(NULL)];
    the draws [rand] gives after [srand(seed)]. *)
Variable atoi : string -> Z.
Variable fopen_r : string -> option FILE.
Variable strerror : string -> string.
Variable time_now : Z.
Variable rand_after_srand : Z -> nat -> nat.

(** [main]; [argv] holds the [argc] arguments, the program name first. *)
Definition main (argv : list string) : Outcome :=
  if (length argv <? 2)%nat then
    {| exit_status := 1; out_stream := EmptyString;
       err_stream := "Usage: " +:+ word_at argv 0 +:+ " file [nwords]" +:+ NONWORD |}
  else
    match fopen_r (word_at argv 1) with
    | None =>
        {| exit_status := 1; out_stream := EmptyString;
           err_stream := word_at argv 1 +:+ ": " +:+ strerror (word_at argv 1)
                         +:+ NONWORD |}
    | Some f =>
        let nwords :=
          if (3 <=? length argv)%nat then atoi (word_at argv 2) else 100 in
        let rand := rand_after_srand (time_now mod UINT_MOD) in
        {| exit_status := 0;
           out_stream :=
             stdout_text (g_out (generate nwords rand (build f statetab0)));
           err_stream := EmptyString |}
    end.
End Main.

(** * Properties *)

(** ** Strings and prefixes *)

Lemma uchar_inj c d : uchar c = uchar d -> c = d.
Proof.
  unfold uchar. intros H. apply N2Z.inj in H.
  rewrite <- (ascii_N_embedding c), <- (ascii_N_embedding d). by rewrite H.
Qed.

Lemma strcmp_refl a : strcmp a a = 0.
Proof. induction a as [|c a IH]; simpl; [done|]. by rewrite Z.eqb_refl. Qed.

Lemma strcmp_eq a b : strcmp a b = 0 <-> a = b.
Proof.
  split; [|intros ->; apply strcmp_refl].
  revert b. induction a as [|c a IH]; intros [|d b]; simpl; try done.
  destruct (Z.eqb_spec (uchar c) (uchar d)) as [E|E].
  - intros H. f_equal; [by apply uchar_inj | by apply IH].
  - by destruct (uchar c <? uchar d).
Qed.

Lemma strcmp_eqb a b : (strcmp a b =? 0) = bool_decide (a = b).
Proof.
  destruct (Z.eqb_spec (strcmp a b) 0) as [E|E].
  - apply strcmp_eq in E. by rewrite bool_decide_eq_true_2.
  - rewrite bool_decide_eq_false_2; [done|]. intros ->. by rewrite strcmp_refl in E.
Qed.

Lemma length_NPREF (p : list string) :
  length p = NPREF -> exists a b, p = [a; b].
Proof. destruct p as [|a [|b [|c p]]]; try done. eauto. Qed.

Lemma prefix_scan_spec (p q : list string) :
  length p = NPREF -> length q = NPREF ->
  Nat.eqb (prefix_scan p q) NPREF = bool_decide (p = q).
Proof.
  intros (a & b & ->)%length_NPREF (c & d & ->)%length_NPREF.
  unfold prefix_scan, NPREF; simpl. rewrite !strcmp_eqb.
  unfold word_at; simpl.
  repeat case_bool_decide; simpl; congruence.
Qed.

Lemma new_state_prefix (p : list string) :
  length p = NPREF -> prefix (new_state p) = p.
Proof. by intros (a & b & ->)%length_NPREF. Qed.

Lemma slide_length (p : list string) t :
  length p = NPREF -> length (slide p t) = NPREF.
Proof. by intros (a & b & ->)%length_NPREF. Qed.

Lemma start_prefix_length : length start_prefix = NPREF.
Proof. done. Qed.

Lemma hash_range p : (Z.to_nat (hash p) < Z.to_nat HASHSIZE)%nat.
Proof.
  unfold hash. apply Z2Nat.inj_lt; [| done |]; apply Z.mod_pos_bound; done.
Qed.

(** ** Pointers into the table *)

Lemma get_bucket (tab : Table) h j : get tab (h, j) = bucket tab h !! j.
Proof. unfold get, bucket; simpl. by destruct (tab !! h). Qed.

Lemma get_statetab0 ptr : get statetab0 ptr = None.
Proof.
  destruct ptr as [h j]. rewrite get_bucket. unfold bucket, statetab0.
  destruct (replicate (Z.to_nat HASHSIZE) [] !! h) as [c|] eqn:E; [|done].
  apply lookup_replicate in E as [-> _]. done.
Qed.

Lemma bucket_insert_eq (tab : Table) h c :
  (h < length tab)%nat -> bucket (<[h := c]> tab) h = c.
Proof. intros H. unfold bucket. by rewrite list_lookup_insert_eq. Qed.

Lemma bucket_insert_ne (tab : Table) h h' c :
  h <> h' -> bucket (<[h := c]> tab) h' = bucket tab h'.
Proof. intros H. unfold bucket. by rewrite list_lookup_insert_ne. Qed.

(** Reading through a pointer after [add_suffix]. *)
Lemma get_add_suffix (tab : Table) ptr0 t ptr :
  get (add_suffix ptr0 t tab) ptr =
  (if decide (ptr = ptr0) then push_suffix t else id) <$> get tab ptr.
Proof.
  destruct ptr0 as [h0 j0], ptr as [h j]. unfold add_suffix, get; simpl.
  destruct (decide (h = h0)) as [->|Hh].
  - rewrite list_lookup_alter_eq. destruct (tab !! h0) as [c|]; simpl.
    + destruct (decide (j = j0)) as [->|Hj].
      * rewrite list_lookup_alter_eq. by rewrite decide_True.
      * rewrite list_lookup_alter_ne by done. rewrite decide_False by congruence.
        by destruct (c !! j).
    + done.
  - rewrite list_lookup_alter_ne by done. rewrite decide_False by congruence.
    destruct (tab !! h) as [c|]; simpl; [by destruct (c !! j)|done].
Qed.

(** ** The table invariant *)

Lemma table_ok_statetab0 : table_ok statetab0.
Proof.
  split.
  - apply length_replicate.
  - intros ptr sp H. by rewrite get_statetab0 in H.
  - intros h j1 j2 sp1 sp2 H. by rewrite get_statetab0 in H.
Qed.

Lemma table_ok_ptr_inj tab ptr1 ptr2 sp1 sp2 :
  table_ok tab -> get tab ptr1 = Some sp1 -> get tab ptr2 = Some sp2 ->
  prefix sp1 = prefix sp2 -> ptr1 = ptr2.
Proof.
  intros Hok H1 H2 E. destruct ptr1 as [h1 j1], ptr2 as [h2 j2].
  pose proof (ok_hash _ Hok _ _ H1) as [E1 _].
  pose proof (ok_hash _ Hok _ _ H2) as [E2 _]. simpl in *.
  assert (h1 = h2) as -> by congruence.
  f_equal. by eapply (ok_uniq _ Hok).
Qed.

Lemma scan_chain_Some p chain j k :
  length p = NPREF ->
  (forall i sp, chain !! i = Some sp -> length (prefix sp) = NPREF) ->
  scan_chain p chain j = Some k ->
  exists sp, (j <= k)%nat /\ chain !! (k - j)%nat = Some sp /\ prefix sp = p.
Proof.
  intros Hp. revert j. induction chain as [|sp0 rest IH]; intros j Hc; simpl; [done|].
  rewrite prefix_scan_spec; [| done | by apply (Hc O sp0)].
  case_bool_decide as E.
  - intros [= <-]. exists sp0. by rewrite Nat.sub_diag.
  - intros H1. apply IH in H1 as (sp & Hle & Hl & Hpp).
    + exists sp. split; [lia|]. replace (k - j)%nat with (S (k - S j)) by lia. done.
    + intros i sp. apply (Hc (S i)).
Qed.

Lemma scan_chain_None p chain j :
  length p = NPREF ->
  (forall i sp, chain !! i = Some sp -> length (prefix sp) = NPREF) ->
  scan_chain p chain j = None ->
  forall i sp, chain !! i = Some sp -> prefix sp <> p.
Proof.
  intros Hp. revert j. induction chain as [|sp0 rest IH]; intros j Hc; simpl; [done|].
  rewrite prefix_scan_spec; [| done | by apply (Hc O sp0)].
  case_bool_decide as E; [done|].
  intros H1 [|i] sp; simpl.
  - intros [= <-]. congruence.
  - apply (IH (S j)); [|done]. intros i' sp'. apply (Hc (S i')).
Qed.

(** The chain that [lookup] scans, and what the scan finds. *)
Lemma lookup_cases p create tab :
  table_ok tab -> length p = NPREF ->
  let h := Z.to_nat (hash p) in
  (exists ptr sp, lookup p create tab = (Some ptr, tab) /\
                  get tab ptr = Some sp /\ prefix sp = p)
  \/ ((forall sp, stored tab sp -> prefix sp <> p) /\
      lookup p create tab =
        if create then (Some (h, O), <[h := new_state p :: bucket tab h]> tab)
        else (None, tab)).
Proof.
  intros Hok Hp h. unfold lookup. fold h.
  assert (Hc : forall i sp, bucket tab h !! i = Some sp -> length (prefix sp) = NPREF).
  { intros i sp Hi. rewrite <- get_bucket in Hi. by apply (ok_hash _ Hok) in Hi as [_ ?]. }
  destruct (scan_chain p (bucket tab h) 0) as [k|] eqn:E.
  - left. apply scan_chain_Some in E as (sp & _ & Hl & Hpp); [|done..].
    rewrite Nat.sub_0_r in Hl. exists (h, k), sp. by rewrite get_bucket.
  - right. split; [|done]. intros sp [[h' j] Hs] Hpp.
    pose proof (ok_hash _ Hok _ _ Hs) as [Hh _]. simpl in Hh.
    rewrite Hpp in Hh. fold h in Hh. subst h'.
    rewrite get_bucket in Hs. by eapply scan_chain_None in E.
Qed.

(** Reading through a pointer after a node was put at the head of a chain. *)
Lemma get_create (tab : Table) h sp0 ptr :
  (h < length tab)%nat ->
  get (<[h := sp0 :: bucket tab h]> tab) ptr =
  if decide (ptr.1 = h) then
    match ptr.2 with O => Some sp0 | S j => get tab (h, j) end
  else get tab ptr.
Proof.
  intros Hh. destruct ptr as [h' j]. rewrite get_bucket. simpl.
  case_decide as E.
  - subst h'. rewrite bucket_insert_eq by done. destruct j; simpl; [done|].
    by rewrite get_bucket.
  - rewrite bucket_insert_ne by done. by rewrite get_bucket.
Qed.

Lemma table_ok_create p tab :
  table_ok tab -> length p = NPREF ->
  (forall sp, stored tab sp -> prefix sp <> p) ->
  table_ok (<[Z.to_nat (hash p) := new_state p :: bucket tab (Z.to_nat (hash p))]> tab).
Proof.
  intros Hok Hp Hnew. set (h := Z.to_nat (hash p)).
  assert (Hh : (h < length tab)%nat).
  { rewrite (ok_len _ Hok). apply hash_range. }
  split.
  - rewrite length_insert. apply Hok.
  - intros [h' j] sp. rewrite get_create by done. simpl.
    case_decide as E; [subst h'; destruct j|].
    + intros [= <-]. by rewrite new_state_prefix.
    + intros H. by apply (ok_hash _ Hok) in H as [? ?].
    + intros H. by apply (ok_hash _ Hok) in H as [? ?].
  - intros h' j1 j2 sp1 sp2. rewrite !get_create by done. simpl.
    case_decide as E; [subst h'|by apply (ok_uniq _ Hok)].
    destruct j1 as [|j1], j2 as [|j2]; try done.
    + intros [= <-] H2 E. rewrite new_state_prefix in E by done.
      exfalso. apply (Hnew sp2); [by eexists|done].
    + intros H1 [= <-] E. rewrite new_state_prefix in E by done.
      exfalso. apply (Hnew sp1); [by eexists|done].
    + intros H1 H2 E. f_equal. by eapply (ok_uniq _ Hok).
Qed.

Lemma table_ok_add_suffix tab ptr0 t :
  table_ok tab -> table_ok (add_suffix ptr0 t tab).
Proof.
  intros Hok.
  assert (Hget : forall ptr sp', get (add_suffix ptr0 t tab) ptr = Some sp' ->
            exists sp, get tab ptr = Some sp /\ prefix sp' = prefix sp).
  { intros ptr sp'. rewrite get_add_suffix.
    destruct (get tab ptr) as [sp|]; simpl; [|done].
    intros [= <-]. exists sp. split; [done|]. by case_decide. }
  split.
  - unfold add_suffix. rewrite length_alter. apply Hok.
  - intros ptr sp' (sp & Hs & ->)%Hget. by apply (ok_hash _ Hok).
  - intros h j1 j2 sp1 sp2 (s1 & H1 & ->)%Hget (s2 & H2 & ->)%Hget.
    by apply (ok_uniq _ Hok h).
Qed.

Lemma State_eq (sp sp' : State) :
  prefix sp = prefix sp' -> suffixes sp = suffixes sp' -> sp = sp'.
Proof. destruct sp, sp'; simpl; congruence. Qed.

Lemma stored_dec p tab :
  table_ok tab -> length p = NPREF ->
  (exists sp, stored tab sp /\ prefix sp = p)
  \/ (forall sp, stored tab sp -> prefix sp <> p).
Proof.
  intros Hok Hp.
  destruct (lookup_cases p false tab Hok Hp) as [(ptr & sp & _ & Hg & E)|[Hnew _]].
  - left. exists sp. split; [by exists ptr|done].
  - by right.
Qed.

(** With [create] set, [lookup] returns a valid pointer to the node of the
    prefix. *)
Lemma lookup_create_valid p tab :
  table_ok tab -> length p = NPREF ->
  exists ptr sp, (lookup p true tab).1 = Some ptr /\
    get (lookup p true tab).2 ptr = Some sp /\ prefix sp = p.
Proof.
  intros Hok Hp.
  destruct (lookup_cases p true tab Hok Hp) as [(ptr & sp & -> & Hg & E)|[Hnew ->]]; simpl.
  - by exists ptr, sp.
  - eexists _, _. split; [done|]. rewrite get_create; simpl.
    + rewrite decide_True by done. split; [done|]. by apply new_state_prefix.
    + rewrite (ok_len _ Hok). apply hash_range.
Qed.

(** The effect of one [add] on the window and on the nodes of the table. *)
Lemma add_spec p tab t :
  table_ok tab -> length p = NPREF ->
  (add (p, tab) t).1 = slide p t /\ table_ok (add (p, tab) t).2 /\
  forall sp', stored (add (p, tab) t).2 sp' <->
    (prefix sp' = p /\
      ((exists sp, stored tab sp /\ prefix sp = p /\ suffixes sp' = t :: suffixes sp)
       \/ ((forall sp, stored tab sp -> prefix sp <> p) /\ suffixes sp' = [t])))
    \/ (prefix sp' <> p /\ stored tab sp').
Proof.
  intros Hok Hp. unfold add; simpl.
  destruct (lookup_cases p true tab Hok Hp) as [(ptr & sp & -> & Hg & E)|[Hnew ->]]; simpl.
  - split; [done|]. split; [by apply table_ok_add_suffix|].
    intros sp'. split.
    + intros [ptr' H]. rewrite get_add_suffix in H.
      destruct (get tab ptr') as [s|] eqn:Hs; simpl in H; [|done].
      injection H as <-. case_decide as Hd.
      * subst ptr'. assert (s = sp) as -> by congruence.
        left. split; [done|]. left. exists sp. split; [by exists ptr|done].
      * unfold id. right. split; [|by exists ptr'].
        intros E'. apply Hd. eapply table_ok_ptr_inj; eauto. congruence.
    + intros [[E' [(s & [q Hq] & Es & Hsuf)|[Hnone _]]]|[Hne [ptr' Hs]]].
      * assert (q = ptr) as -> by (eapply table_ok_ptr_inj; eauto; congruence).
        assert (s = sp) as -> by congruence.
        exists ptr. rewrite get_add_suffix, Hg, decide_True by done. simpl.
        f_equal. apply State_eq; simpl; congruence.
      * exfalso. apply (Hnone sp); [by exists ptr|done].
      * exists ptr'. rewrite get_add_suffix, Hs. simpl. f_equal.
        rewrite decide_False; [done|]. intros ->. congruence.
  - set (h := Z.to_nat (hash p)).
    assert (Hh : (h < length tab)%nat).
    { rewrite (ok_len _ Hok). apply hash_range. }
    split; [done|]. split; [by apply table_ok_add_suffix, table_ok_create|].
    intros sp'. split.
    + intros [ptr' H]. rewrite get_add_suffix, get_create in H by done.
      destruct ptr' as [h' j]; simpl in H.
      destruct (decide (h' = h)) as [->|Hh']; [destruct j as [|j]|].
      * rewrite decide_True in H by done. simpl in H. injection H as <-.
        left. split; [exact (new_state_prefix p Hp)|]. by right.
      * rewrite decide_False in H by congruence.
        destruct (get tab (h, j)) as [s|] eqn:Hs; simpl in H; [|done].
        injection H as <-. right. split; [|by exists (h, j)].
        apply Hnew. by exists (h, j).
      * rewrite decide_False in H by congruence.
        destruct (get tab (h', j)) as [s|] eqn:Hs; simpl in H; [|done].
        injection H as <-. right. split; [|by exists (h', j)].
        apply Hnew. by exists (h', j).
    + intros [[E' [(s & Hs & Es & _)|[_ Hsuf]]]|[Hne [[h' j] Hs]]].
      * exfalso. by apply (Hnew s).
      * exists (h, O). rewrite get_add_suffix, get_create by done. simpl.
        rewrite !decide_True by done. simpl. f_equal.
        apply State_eq; [|by rewrite Hsuf]. rewrite E'. exact (new_state_prefix p Hp).
      * destruct (decide (h' = h)) as [->|Hh'].
        -- exists (h, S j). rewrite get_add_suffix, get_create by done. simpl.
           rewrite (decide_True (P := h = h)) by done.
           rewrite (decide_False (P := (h, S j) = (h, O))) by congruence.
           by rewrite Hs.
        -- exists (h', j). rewrite get_add_suffix, get_create by done. simpl.
           rewrite (decide_False (P := h' = h)) by done.
           rewrite (decide_False (P := (h', j) = (h, O))) by congruence.
           by rewrite Hs.
Qed.

(** ** The table as a record of the calls of [add] *)

Lemma recorded_snoc p calls q t :
  recorded p (calls ++ [(q, t)]) =
  recorded p calls ++ (if decide (q = p) then [t] else []).
Proof.
  unfold recorded. rewrite filter_app, fmap_app. f_equal.
  rewrite filter_cons, filter_nil. simpl. by case_decide.
Qed.

Lemma recorded_absent p calls : p ∉ calls.*1 -> recorded p calls = [].
Proof.
  unfold recorded. induction calls as [|[q t] calls IH]; simpl; [done|].
  intros H. rewrite not_elem_of_cons in H. destruct H as [H1 H2].
  rewrite filter_cons. simpl. rewrite decide_False by congruence. by apply IH.
Qed.

Lemma rep_init : rep statetab0 [].
Proof.
  split; [apply table_ok_statetab0| |].
  - intros sp [ptr H]. by rewrite get_statetab0 in H.
  - intros p H. by apply elem_of_nil in H.
Qed.

Lemma rep_add tab calls p t :
  rep tab calls -> length p = NPREF ->
  rep (add (p, tab) t).2 (calls ++ [(p, t)]).
Proof.
  intros [Hok Hsufs Hhas] Hp.
  destruct (add_spec p tab t Hok Hp) as (_ & Hok' & Hst).
  split; [done| |].
  - intros sp' Hs'. rewrite recorded_snoc, fmap_app, elem_of_app. simpl.
    apply Hst in Hs' as [[E [(sp & Hs & Es & Hsuf)|[Hnone Hsuf]]]|[Hne Hs]].
    + rewrite decide_True by done. rewrite rev_app_distr. simpl.
      rewrite Hsuf, E. destruct (Hsufs sp Hs) as [-> _]. rewrite Es.
      split; [done|]. right. by apply list_elem_of_singleton.
    + rewrite decide_True by done. rewrite recorded_absent.
      * split; [by rewrite Hsuf|]. right. by apply list_elem_of_singleton.
      * intros Hin. rewrite E in Hin. apply Hhas in Hin as (sp & Hs & Es).
        by apply (Hnone sp).
    + rewrite decide_False by done. rewrite app_nil_r.
      destruct (Hsufs sp' Hs) as [-> Hin]. split; [done|]. by left.
  - intros q. rewrite fmap_app, elem_of_app. simpl.
    rewrite list_elem_of_singleton. intros [Hin| ->].
    + destruct (decide (q = p)) as [->|Hne].
      * apply Hhas in Hin as (sp & Hs & Es).
        exists (push_suffix t sp). split; [|done].
        apply Hst. left. split; [done|]. left. by exists sp.
      * apply Hhas in Hin as (sp & Hs & Es). exists sp. split; [|done].
        apply Hst. right. split; [congruence|done].
    + destruct (stored_dec p tab Hok Hp) as [(sp & Hs & Es)|Hnone].
      * exists (push_suffix t sp). split; [|done].
        apply Hst. left. split; [done|]. left. by exists sp.
      * exists (mkState p [t]). split; [|done].
        apply Hst. left. split; [done|]. by right.
Qed.

(** ** Training on a list of words *)

Lemma add_fst st t : (add st t).1 = slide st.1 t.
Proof. unfold add. destruct (lookup st.1 true st.2) as [[ptr|] tab1]; done. Qed.

Lemma train_fst ts st : (train ts st).1 = fold_left slide ts st.1.
Proof.
  revert st. induction ts as [|t ts IH]; intros st; simpl; [done|].
  unfold train in IH. by rewrite IH, add_fst.
Qed.

Lemma fold_slide_length ts w :
  length w = NPREF -> length (fold_left slide ts w) = NPREF.
Proof.
  revert w. induction ts as [|t ts IH]; intros w Hw; simpl; [done|].
  by apply IH, slide_length.
Qed.

Lemma train_rep ts w tab calls :
  rep tab calls -> length w = NPREF ->
  rep (train ts (w, tab)).2 (calls ++ calls_from w ts).
Proof.
  revert w tab calls. induction ts as [|t ts IH]; intros w tab calls Hrep Hw; simpl.
  - by rewrite app_nil_r.
  - pose proof (rep_add tab calls w t Hrep Hw) as Hrep'.
    pose proof (add_fst (w, tab) t) as Hfst. simpl in Hfst.
    destruct (add (w, tab) t) as [w' tab'] eqn:E. simpl in *. subst w'.
    rewrite cons_middle, app_assoc. apply IH; [done|]. by apply slide_length.
Qed.

Lemma window_at_slide ts i :
  window_at ts i = fold_left slide (take i ts) start_prefix.
Proof. unfold window_at. by rewrite train_fst. Qed.

Lemma window_at_length ts i : length (window_at ts i) = NPREF.
Proof. rewrite window_at_slide. by apply fold_slide_length. Qed.

Lemma calls_from_zip w all :
  calls_from w all =
  zip ((fun i => fold_left slide (take i all) w) <$> seq 0 (length all)) all.
Proof.
  revert w. induction all as [|t all IH]; intros w; simpl; [done|].
  f_equal. rewrite IH. f_equal. rewrite <- fmap_S_seq, <- list_fmap_compose.
  done.
Qed.

Lemma build_log_calls ts :
  build_log ts = calls_from start_prefix (ts ++ [NONWORD]).
Proof.
  unfold build_log. rewrite calls_from_zip. f_equal.
  replace (length (ts ++ [NONWORD])) with (S (length ts))
    by (rewrite length_app; simpl; lia).
  apply list_fmap_ext. intros k i Hi. apply lookup_seq in Hi as [-> Hi].
  rewrite window_at_slide. simpl. rewrite take_app_le by lia. done.
Qed.

(** ** Reading the file *)

Lemma skip_space_length f : (length (skip_space f) <= length f)%nat.
Proof. induction f as [|c f IH]; simpl; [done|]. destruct (isspace c); simpl; lia. Qed.

Lemma skip_space_head f c f1 : skip_space f = c :: f1 -> isspace c = false.
Proof.
  induction f as [|d f IH]; simpl; [done|].
  destruct (isspace d) eqn:E; [done|]. by intros [= <- <-].
Qed.

Lemma scan_word_spec w f buf rest :
  scan_word w f = (buf, rest) ->
  Forall (fun c => isspace c = false) buf /\ (length buf <= w)%nat /\ f = buf ++ rest.
Proof.
  revert f buf rest. induction w as [|w IH]; intros [|c f] buf rest; simpl;
    try (intros [= <- <-]; split; [constructor|split; [simpl; lia|done]]).
  destruct (isspace c) eqn:E.
  - intros [= <- <-]. split; [constructor|split; [simpl; lia|done]].
  - destruct (scan_word w f) as [b r] eqn:Es. intros [= <- <-].
    apply IH in Es as (Hb & Hl & ->). split; [by constructor|]. simpl. split; [lia|done].
Qed.

Lemma scan_word_S w c f :
  scan_word (S w) (c :: f) =
  if isspace c then ([], c :: f)
  else let '(buf, rest) := scan_word w f in (c :: buf, rest).
Proof. done. Qed.

(** A successful [fscanf] yields between 1 and 99 bytes, none of them
    white space, and consumes them. *)
Lemma fscanf_s_spec f buf f' :
  fscanf_s f = Some (buf, f') ->
  Forall (fun c => isspace c = false) buf /\ (1 <= length buf <= MAX_WORD - 1)%nat /\
  (length f' < length f)%nat.
Proof.
  unfold fscanf_s. destruct (skip_space f) as [|c f1] eqn:E; [done|].
  intros H. apply (inj Some) in H. pose proof (skip_space_head _ _ _ E) as Hc.
  pose proof (skip_space_length f) as Hl. rewrite E in Hl. simpl in Hl.
  change (MAX_WORD - 1)%nat with (S 98) in H. rewrite scan_word_S, Hc in H.
  destruct (scan_word 98 f1) as [b r] eqn:Es. injection H as <- <-.
  apply scan_word_spec in Es as (Hb & Hlen & ->).
  split; [by constructor|]. rewrite length_app in Hl. simpl.
  unfold MAX_WORD. split; lia.
Qed.

Lemma c_str_chars buf c :
  In c (list_ascii_of_string (c_str buf)) -> In c buf.
Proof.
  induction buf as [|d buf IH]; simpl; [done|].
  destruct (uchar d =? 0); simpl; [done|]. intros [->|H]; [by left|by right; apply IH].
Qed.

Lemma c_str_not_NONWORD buf :
  Forall (fun c => isspace c = false) buf -> c_str buf <> NONWORD.
Proof.
  intros Hb E. rewrite Forall_forall in Hb.
  assert (Hin : In "010"%char (list_ascii_of_string (c_str buf))).
  { rewrite E. simpl. by left. }
  apply c_str_chars, list_elem_of_In, Hb in Hin. done.
Qed.

(** Any fuel of at least the length of the file reads the same words: the
    loop of [build] ends at [EOF], not for lack of fuel. *)
Lemma read_words_enough n m f :
  (length f <= n)%nat -> (length f <= m)%nat -> read_words n f = read_words m f.
Proof.
  revert m f. induction n as [|n IH]; intros [|m] f Hn Hm; simpl; try done.
  - destruct f; [|simpl in Hn; lia]. done.
  - destruct f; [|simpl in Hm; lia]. done.
  - destruct (fscanf_s f) as [[buf f']|] eqn:E; [|done].
    pose proof (fscanf_s_spec _ _ _ E) as (_ & _ & Hl).
    f_equal. apply IH; lia.
Qed.

Lemma read_words_fuel fuel f :
  (length f <= fuel)%nat -> read_words fuel f = tokens f.
Proof. intros H. by apply read_words_enough. Qed.

Lemma read_words_not_NONWORD fuel f :
  Forall (fun t => t <> NONWORD) (read_words fuel f).
Proof.
  revert f. induction fuel as [|fuel IH]; intros f; simpl; [constructor|].
  destruct (fscanf_s f) as [[buf f']|] eqn:E; [|constructor].
  constructor; [|apply IH].
  apply fscanf_s_spec in E as (Hb & _). by apply c_str_not_NONWORD.
Qed.

Lemma tokens_not_NONWORD f : Forall (fun t => t <> NONWORD) (tokens f).
Proof. apply read_words_not_NONWORD. Qed.

Lemma build_loop_train fuel f st :
  build_loop fuel f st = train (read_words fuel f) st.
Proof.
  revert f st. induction fuel as [|fuel IH]; intros f st; simpl; [done|].
  destruct (fscanf_s f) as [[buf f']|]; [|done]. simpl. by rewrite IH.
Qed.

Lemma build_train f tab :
  build f tab = (train (tokens f ++ [NONWORD]) (start_prefix, tab)).2.
Proof.
  unfold build. rewrite build_loop_train. unfold train, tokens.
  by rewrite fold_left_app.
Qed.

(** The table left by [build] records exactly the calls of [build_log]. *)
Lemma build_rep f : rep (build f statetab0) (build_log (tokens f)).
Proof.
  rewrite build_train, build_log_calls.
  apply (train_rep _ _ _ [] rep_init start_prefix_length).
Qed.

Lemma build_loop_fuel fuel f st :
  (length f <= fuel)%nat -> build_loop fuel f st = build_loop (length f) f st.
Proof. intros H. rewrite !build_loop_train. by rewrite read_words_fuel. Qed.

(** ** The generator *)

(** The five ways a pass of the loop can go. *)
Lemma gen_step_cases tab nwords rand s :
  (nwords <= g_i s /\ gen_step tab nwords rand s = stop s StoppedByLengthLimit 0)
  \/ (g_i s < nwords /\
      (((lookup (g_prefix s) false tab).1 = None /\
          gen_step tab nwords rand s = stop s StoppedByMissingEntry 1)
       \/ exists ptr, (lookup (g_prefix s) false tab).1 = Some ptr /\
          ((suffixes_at tab ptr = [] /\
              gen_step tab nwords rand s = stop s StoppedByEmptyBag 1)
           \/ (suffixes_at tab ptr <> [] /\
               ((drawn tab rand s ptr = NONWORD /\
                   gen_step tab nwords rand s = sentinel_state s)
                \/ (drawn tab rand s ptr <> NONWORD /\
                    gen_step tab nwords rand s =
                      emit_state s (drawn tab rand s ptr))))))).
Proof.
  unfold gen_step. destruct (Z.ltb_spec (g_i s) nwords) as [Hi|Hi]; simpl.
  2: { left. done. }
  right. split; [done|].
  destruct (lookup (g_prefix s) false tab).1 as [ptr|]; [|by left].
  right. exists ptr. split; [done|].
  destruct (suffixes_at tab ptr) as [|w0 sufs] eqn:Es; [by left|].
  right. split; [done|]. simpl Nat.eqb. cbv iota.
  unfold drawn. rewrite Es. rewrite strcmp_eqb.
  case_bool_decide as E; [by left|by right].
Qed.

Lemma gen_inv_init nwords : gen_inv nwords gen_init.
Proof.
  unfold gen_inv, gen_init; simpl. split; [done|]. split; [apply not_elem_of_nil|lia].
Qed.

Lemma gen_inv_step tab nwords rand s :
  gen_inv nwords s -> g_status s = Running ->
  gen_inv nwords (gen_step tab nwords rand s).
Proof.
  unfold gen_inv. intros (Hlen & Hout & Hst) Hrun. rewrite Hrun in Hst.
  destruct Hst as (Hit & Hdr & Hle).
  destruct (gen_step_cases tab nwords rand s)
    as [[Hi ->]|[Hi [[_ ->]|(ptr & _ & [[_ ->]|[_ [[_ ->]|[Hw ->]]]])]]]; simpl.
  - repeat split; try done; lia.
  - repeat split; try done; lia.
  - repeat split; try done; lia.
  - repeat split; try done; lia.
  - rewrite length_app. simpl. repeat split; try lia.
    rewrite not_elem_of_app. split; [done|].
    rewrite list_elem_of_singleton. congruence.
Qed.

Lemma gen_run_stopped fuel tab nwords rand s :
  g_status s <> Running -> gen_run fuel tab nwords rand s = s.
Proof. destruct fuel; simpl; [done|]. by destruct (g_status s). Qed.

Lemma gen_run_inv fuel tab nwords rand s :
  gen_inv nwords s -> gen_inv nwords (gen_run fuel tab nwords rand s).
Proof.
  revert s. induction fuel as [|fuel IH]; intros s Hinv; simpl; [done|].
  destruct (g_status s) eqn:E; try done. by apply IH, gen_inv_step.
Qed.

(** A running state with [i] close enough to [nwords] stops within the
    fuel. *)
Lemma gen_run_stops fuel tab nwords rand s :
  gen_inv nwords s ->
  (Z.to_nat (nwords - g_i s) < fuel)%nat ->
  g_status (gen_run fuel tab nwords rand s) <> Running.
Proof.
  revert s. induction fuel as [|fuel IH]; intros s Hinv Hfuel; [lia|]. simpl.
  destruct (g_status s) eqn:E; try (rewrite E; done).
  destruct (gen_step_cases tab nwords rand s)
    as [[Hi Hs]|[Hi [[_ Hs]|(ptr & _ & [[_ Hs]|[_ [[_ Hs]|[Hw Hs]]]])]]].
  1-4: rewrite gen_run_stopped; rewrite Hs; done.
  apply IH; [by apply gen_inv_step|]. rewrite Hs. simpl. lia.
Qed.

Lemma generate_stops nwords rand tab :
  g_status (generate nwords rand tab) <> Running.
Proof.
  unfold generate. apply gen_run_stops; [apply gen_inv_init|]. simpl. lia.
Qed.

Lemma gen_run_add a b tab nwords rand s :
  gen_run (a + b) tab nwords rand s =
  gen_run b tab nwords rand (gen_run a tab nwords rand s).
Proof.
  revert s. induction a as [|a IH]; intros s; simpl; [done|].
  destruct (g_status s) eqn:E; try (rewrite gen_run_stopped; [done|by rewrite E]).
  apply IH.
Qed.

(** More fuel does not change the result: the run has ended. *)
Lemma generate_fuel fuel nwords rand tab :
  (S (Z.to_nat nwords) <= fuel)%nat ->
  gen_run fuel tab nwords rand gen_init = generate nwords rand tab.
Proof.
  intros H. replace fuel with (S (Z.to_nat nwords) + (fuel - S (Z.to_nat nwords)))%nat by lia.
  rewrite gen_run_add. apply gen_run_stopped, generate_stops.
Qed.

(** A pass reads [rand] only through the residue of the current draw
    modulo the length of a stored suffix list. *)
Lemma gen_step_ext tab nwords r1 r2 s :
  (g_i s < nwords -> forall sp, stored tab sp ->
     (r1 (g_draws s) mod length (suffixes sp) =
      r2 (g_draws s) mod length (suffixes sp))%nat) ->
  gen_step tab nwords r1 s = gen_step tab nwords r2 s.
Proof.
  intros H. unfold gen_step.
  destruct (Z.ltb_spec (g_i s) nwords) as [Hi|Hi]; simpl; [|done].
  destruct (lookup (g_prefix s) false tab).1 as [ptr|]; [|done].
  unfold suffixes_at. destruct (get tab ptr) as [sp|] eqn:E; [|done].
  rewrite (H Hi sp) by (by exists ptr). done.
Qed.

Lemma gen_run_ext fuel tab nwords r1 r2 s :
  gen_inv nwords s ->
  (forall k sp, (k < Z.to_nat nwords)%nat -> stored tab sp ->
     (r1 k mod length (suffixes sp) = r2 k mod length (suffixes sp))%nat) ->
  gen_run fuel tab nwords r1 s = gen_run fuel tab nwords r2 s.
Proof.
  intros Hinv H. revert s Hinv.
  induction fuel as [|fuel IH]; intros s Hinv; simpl; [done|].
  destruct (g_status s) eqn:E; try done.
  assert (Hs : gen_step tab nwords r1 s = gen_step tab nwords r2 s).
  { apply gen_step_ext. intros Hi sp Hsp. apply H; [|done].
    destruct Hinv as (_ & _ & Hst). rewrite E in Hst. lia. }
  rewrite Hs. apply IH. by apply gen_inv_step.
Qed.

(** The words printed by a run extend the words printed before it. *)
Lemma gen_run_out fuel tab nwords rand s :
  exists rest, g_out (gen_run fuel tab nwords rand s) = g_out s ++ rest.
Proof.
  revert s. induction fuel as [|fuel IH]; intros s; simpl.
  - exists []. by rewrite app_nil_r.
  - destruct (g_status s) eqn:E; try (exists []; by rewrite app_nil_r).
    destruct (IH (gen_step tab nwords rand s)) as [rest ->].
    destruct (gen_step_cases tab nwords rand s)
      as [[Hi ->]|[Hi [[_ ->]|(ptr & _ & [[_ ->]|[_ [[_ ->]|[Hw ->]]]])]]]; simpl;
      eauto.
    rewrite <- app_assoc. eauto.
Qed.

Lemma bag_of_stored tab sp :
  table_ok tab -> stored tab sp -> bag_of tab (prefix sp) = Some (suffixes sp).
Proof.
  intros Hok [ptr Hs]. unfold bag_of.
  pose proof (ok_hash _ Hok _ _ Hs) as [_ Hl].
  destruct (lookup_cases (prefix sp) false tab Hok Hl)
    as [(q & sq & -> & Hq & E)|[Hnone _]]; simpl.
  - assert (q = ptr) as -> by (by eapply table_ok_ptr_inj).
    by rewrite Hs.
  - exfalso. apply (Hnone sp); [by exists ptr|done].
Qed.

Lemma suffixes_at_bag tab p ptr l :
  (lookup p false tab).1 = Some ptr -> bag_of tab p = Some l ->
  suffixes_at tab ptr = l.
Proof.
  unfold bag_of, suffixes_at. intros ->.
  destruct (get tab ptr); simpl; congruence.
Qed.

Lemma bag_of_lookup tab p l :
  bag_of tab p = Some l -> exists ptr, (lookup p false tab).1 = Some ptr.
Proof. unfold bag_of. destruct (lookup p false tab).1; [eauto|done]. Qed.

(** * The specified properties *)

(** C4. Generation always terminates: for every table, every [nwords] and
    every stream of draws, the run of [generate] reaches a stopped state,
    has entered the loop body at most [nwords] times (no time for a
    negative [nwords]) and has printed at most that many words; running the
    loop with more fuel gives the same final state. *)
Theorem C4_generate_terminates tab nwords rand :
  is_stopped (g_status (generate nwords rand tab)) = true /\
  Z.of_nat (g_iters (generate nwords rand tab)) <= Z.max 0 nwords /\
  Z.of_nat (length (g_out (generate nwords rand tab))) <= Z.max 0 nwords /\
  forall extra,
    gen_run (S (Z.to_nat nwords) + extra) tab nwords rand gen_init =
    generate nwords rand tab.
Proof.
  pose proof (generate_stops nwords rand tab) as Hstop.
  assert (Hinv : gen_inv nwords (generate nwords rand tab))
    by apply gen_run_inv, gen_inv_init.
  destruct Hinv as (Hlen & _ & Hst).
  split; [by destruct (g_status (generate nwords rand tab))|].
  split; [|split].
  - destruct (g_status (generate nwords rand tab)); try done; lia.
  - rewrite Hlen. destruct (g_status (generate nwords rand tab)); lia.
  - intros extra. apply generate_fuel. lia.
Qed.

(** C3. The sentinel is never emitted: for every input file, every
    [nwords] and every stream of draws, [NONWORD] is not among the words
    [generate] prints; and a pass of the loop that draws [NONWORD] stops
    the run with the output as it was. *)
Theorem C3_sentinel_never_emitted f nwords rand :
  (NONWORD ∉ g_out (generate nwords rand (build f statetab0))) /\
  forall s ptr,
    g_i s < nwords ->
    (lookup (g_prefix s) false (build f statetab0)).1 = Some ptr ->
    suffixes_at (build f statetab0) ptr <> [] ->
    drawn (build f statetab0) rand s ptr = NONWORD ->
    g_status (gen_step (build f statetab0) nwords rand s) = StoppedBySentinel /\
    g_out (gen_step (build f statetab0) nwords rand s) = g_out s.
Proof.
  split.
  - assert (Hinv : gen_inv nwords (generate nwords rand (build f statetab0)))
      by apply gen_run_inv, gen_inv_init.
    apply Hinv.
  - intros s ptr Hi Hl Hne Hw.
    destruct (gen_step_cases (build f statetab0) nwords rand s)
      as [[Hi' _]|[_ [[Hl' _]|(q & Hq & [[He _]|[_ [[_ ->]|[Hw' _]]]])]]].
    + lia.
    + congruence.
    + assert (q = ptr) as -> by congruence. done.
    + done.
    + assert (q = ptr) as -> by congruence. done.
Qed.

Lemma C3_sentinel_never_emitted_witness :
  (NONWORD ∉ g_out (generate 1 (fun _ => O) (build (file_of "") statetab0))) /\
  g_status (gen_step (build (file_of "") statetab0) 1 (fun _ => O) gen_init)
    = StoppedBySentinel.
Proof.
  destruct (C3_sentinel_never_emitted (file_of "") 1 (fun _ => O)) as [H1 H2].
  split; [exact H1|].
  apply (H2 gen_init (320%nat, O)).
  - reflexivity.
  - vm_compute. reflexivity.
  - vm_compute. discriminate.
  - vm_compute. reflexivity.
Defined.

(** C9. Determinism under fixed randomness: for a fixed input file and a
    fixed [nwords], two runs of [build] followed by [generate] whose draws
    agree on the first [nwords] calls of [rand] end in the same state, and
    so print the same words. *)
Theorem C9_generate_deterministic f nwords rand1 rand2 :
  (forall k, (k < Z.to_nat nwords)%nat -> rand1 k = rand2 k) ->
  generate nwords rand1 (build f statetab0) =
  generate nwords rand2 (build f statetab0).
Proof.
  intros H. unfold generate. apply gen_run_ext; [apply gen_inv_init|].
  intros k sp Hk _. by rewrite (H k Hk).
Qed.

Lemma C9_generate_deterministic_witness :
  generate 3 (fun k => k) (build (file_of "a b a c a b a") statetab0) =
  generate 3 (fun k => if (k <? 3)%nat then k else O)
    (build (file_of "a b a c a b a") statetab0).
Proof.
  apply (C9_generate_deterministic (file_of "a b a c a b a") 3).
  intros k Hk. destruct k as [|[|[|k]]]; try reflexivity.
  simpl in Hk. lia.
Defined.

(** C7. Non-creating lookup is a pure read: on a table that satisfies the
    invariant, [lookup] with [create = 0] leaves the table as it is; when a
    node with the queried prefix is stored it returns the pointer to that
    node, whose prefix words equal the queried ones at every position;
    when no such node is stored it returns [NULL]. *)
Theorem C7_lookup_pure_read tab p :
  table_ok tab -> length p = NPREF ->
  (lookup p false tab).2 = tab /\
  (forall sp, stored tab sp -> prefix sp = p ->
     exists ptr, (lookup p false tab).1 = Some ptr /\ get tab ptr = Some sp /\
       forall i, (i < NPREF)%nat ->
         strcmp (word_at p i) (word_at (prefix sp) i) = 0) /\
  ((forall sp, stored tab sp -> prefix sp <> p) ->
     (lookup p false tab).1 = None) /\
  (forall ptr, (lookup p false tab).1 = Some ptr ->
     exists sp, get tab ptr = Some sp /\ prefix sp = p).
Proof.
  intros Hok Hp.
  destruct (lookup_cases p false tab Hok Hp)
    as [(ptr & sp & -> & Hg & E)|[Hnone ->]]; simpl.
  - split; [done|]. split; [|split].
    + intros sp' [q Hq] E'. exists ptr.
      assert (q = ptr) as -> by (eapply table_ok_ptr_inj; eauto; congruence).
      assert (sp' = sp) as -> by congruence.
      split; [done|]. split; [done|]. intros i _. rewrite E. apply strcmp_refl.
    + intros Hnone. exfalso. apply (Hnone sp); [by exists ptr|done].
    + intros q [= <-]. by exists sp.
  - split; [done|]. split; [|split]; [|done|done].
    intros sp Hs E. exfalso. by apply (Hnone sp).
Qed.

Lemma C7_lookup_pure_read_witness :
  (lookup ["a"; "b"]%string false (build (file_of "a b a b") statetab0)).2
  = build (file_of "a b a b") statetab0.
Proof.
  apply (C7_lookup_pure_read (build (file_of "a b a b") statetab0)
           ["a"; "b"]%string).
  - exact (rep_ok _ _ (build_rep (file_of "a b a b"))).
  - reflexivity.
Defined.

Lemma rev_reverse {A} (l : list A) : rev l = reverse l.
Proof. unfold reverse. apply rev_alt. Qed.

Lemma select_lookup (l : list string) r w : l !! r = Some w -> select l r = w.
Proof. intros H. unfold select. by rewrite (drop_S _ _ _ H). Qed.

Lemma get_add_suffixes tab ptr ts q :
  get (fold_left (fun tb t => add_suffix ptr t tb) ts tab) q =
  (if decide (q = ptr)
   then (fun sp => {| prefix := prefix sp; suffixes := rev ts ++ suffixes sp |})
   else id) <$> get tab q.
Proof.
  revert tab. induction ts as [|t ts IH]; intros tab; simpl.
  - case_decide; destruct (get tab q) as [[]|]; done.
  - rewrite IH, get_add_suffix. case_decide; destruct (get tab q) as [sp|]; simpl; try done.
    by rewrite <- app_assoc.
Qed.

(** C8, as the code has it. [add_suffix] puts the word at the head of the
    suffix list of the node it is given and changes no other node: after
    the words [ts] are added in order, the list reads [ts] backwards in
    front of what it held before, so that position [r] holds the word
    added [r] insertions before the last one. Every insertion makes the
    list one longer: duplicates are kept. *)
Theorem C8_add_suffix_prepends tab ptr sp ts :
  get tab ptr = Some sp ->
  get (fold_left (fun tb t => add_suffix ptr t tb) ts tab) ptr =
    Some {| prefix := prefix sp; suffixes := rev ts ++ suffixes sp |} /\
  (forall q, q <> ptr ->
     get (fold_left (fun tb t => add_suffix ptr t tb) ts tab) q = get tab q) /\
  (forall r, (r < length ts)%nat ->
     ts !! (length ts - 1 - r)%nat =
     Some (select (suffixes_at (fold_left (fun tb t => add_suffix ptr t tb) ts tab) ptr) r)) /\
  length (suffixes_at (fold_left (fun tb t => add_suffix ptr t tb) ts tab) ptr)
    = (length ts + length (suffixes sp))%nat.
Proof.
  intros Hg.
  assert (Hg' : get (fold_left (fun tb t => add_suffix ptr t tb) ts tab) ptr =
    Some {| prefix := prefix sp; suffixes := rev ts ++ suffixes sp |}).
  { rewrite get_add_suffixes, Hg, decide_True by done. done. }
  split; [done|]. split; [|split].
  - intros q Hq. rewrite get_add_suffixes, decide_False by done.
    by destruct (get tab q).
  - intros r Hr. unfold suffixes_at. rewrite Hg'. simpl.
    destruct (ts !! (length ts - 1 - r)%nat) as [w|] eqn:E.
    + f_equal. symmetry. apply select_lookup.
      rewrite lookup_app_l by (rewrite length_rev; lia).
      rewrite rev_reverse, reverse_lookup by done.
      rewrite <- E. f_equal. lia.
    + apply lookup_ge_None in E. lia.
  - unfold suffixes_at. rewrite Hg'. simpl. by rewrite length_app, length_rev.
Qed.

Lemma C8_add_suffix_prepends_witness :
  get (fold_left (fun tb t => add_suffix (320%nat, O) t tb) ["a"; "b"; "a"]%string
         (build (file_of "") statetab0)) (320%nat, O) =
  Some {| prefix := start_prefix; suffixes := ["a"; "b"; "a"; NONWORD]%string |}.
Proof.
  apply (C8_add_suffix_prepends (build (file_of "") statetab0) (320%nat, O)
           {| prefix := start_prefix; suffixes := [NONWORD] |}
           ["a"; "b"; "a"]%string).
  vm_compute. reflexivity.
Defined.

(** C8, as the specification words it, fails: after "a" and then "b" are added to a
    fresh node, the suffix list is "b", "a": it is not the old list with
    "a", "b" appended, and position 0 holds "b", the second word added. *)
Lemma C8_add_suffix_not_append :
  suffixes_at (add_suffix ptr_xy "b" (add_suffix ptr_xy "a" fresh_xy)) ptr_xy
    <> suffixes_at fresh_xy ptr_xy ++ ["a"; "b"]%string /\
  select (suffixes_at (add_suffix ptr_xy "b" (add_suffix ptr_xy "a" fresh_xy))
            ptr_xy) 0 <> "a"%string /\
  suffixes_at (add_suffix ptr_xy "b" (add_suffix ptr_xy "a" fresh_xy)) ptr_xy
    = ["b"; "a"]%string.
Proof. vm_compute. repeat split; discriminate. Qed.

Lemma build_log_fst ts :
  (build_log ts).*1 = window_at ts <$> seq 0 (S (length ts)).
Proof.
  unfold build_log. apply fst_zip.
  rewrite length_fmap, length_seq, length_app. simpl. lia.
Qed.

Lemma build_log_length ts : length (build_log ts) = S (length ts).
Proof.
  rewrite <- (length_fmap fst), build_log_fst, length_fmap. apply length_seq.
Qed.

Lemma build_log_lookup ts i x :
  (ts ++ [NONWORD]) !! i = Some x ->
  build_log ts !! i = Some (window_at ts i, x).
Proof.
  intros H. pose proof (lookup_lt_Some _ _ _ H) as Hi.
  rewrite length_app in Hi. simpl in Hi.
  unfold build_log. rewrite lookup_zip_with, list_lookup_fmap.
  rewrite lookup_seq_lt by lia. simpl. by rewrite H.
Qed.

Lemma build_log_windows ts p :
  p ∈ (build_log ts).*1 <-> exists i, (i <= length ts)%nat /\ p = window_at ts i.
Proof.
  rewrite build_log_fst, list_elem_of_fmap. split.
  - intros (i & -> & Hi%elem_of_seq). exists i. split; [lia|done].
  - intros (i & Hi & ->). exists i. split; [done|]. apply elem_of_seq. lia.
Qed.

(** C5. The prefix index after [build]. Entry [i] of [build_log] pairs the
    [i]-th word read with the value the window had just before it was read,
    and the last entry pairs [NONWORD] with the final window. For every one
    of these windows exactly one pointer of the table leads to a node with
    that prefix; every node of the table has one of these windows as its
    prefix, and its suffix list holds exactly the words logged under that
    window (latest first), so that every word read, and the one final
    [NONWORD], is recorded once, under the window it was read under. *)
Theorem C5_prefix_index_invariant f :
  (forall i, (i <= length (tokens f))%nat ->
     exists! ptr, exists sp,
       get (build f statetab0) ptr = Some sp /\
       prefix sp = window_at (tokens f) i) /\
  (forall sp, stored (build f statetab0) sp ->
     (exists i, (i <= length (tokens f))%nat /\
                prefix sp = window_at (tokens f) i) /\
     suffixes sp = rev (recorded (prefix sp) (build_log (tokens f)))) /\
  (forall i t, tokens f !! i = Some t ->
     build_log (tokens f) !! i = Some (window_at (tokens f) i, t)) /\
  build_log (tokens f) !! length (tokens f) =
    Some (window_at (tokens f) (length (tokens f)), NONWORD) /\
  length (build_log (tokens f)) = S (length (tokens f)).
Proof.
  pose proof (build_rep f) as [Hok Hsufs Hhas].
  split; [|split; [|split; [|split]]].
  - intros i Hi.
    destruct (Hhas (window_at (tokens f) i)) as (sp & [ptr Hg] & E).
    { apply build_log_windows. by exists i. }
    exists ptr. split; [by exists sp|].
    intros q (sq & Hq & Eq). eapply table_ok_ptr_inj; eauto. congruence.
  - intros sp Hs. destruct (Hsufs sp Hs) as [Hsuf Hin]. split; [|done].
    by apply build_log_windows.
  - intros i t Ht. apply build_log_lookup. by apply lookup_app_l_Some.
  - apply build_log_lookup. by rewrite list_lookup_middle.
  - apply build_log_length.
Qed.

Lemma C5_prefix_index_invariant_witness :
  exists! ptr, exists sp,
    get (build (file_of "a b a b") statetab0) ptr = Some sp /\
    prefix sp = window_at (tokens (file_of "a b a b")) 4.
Proof.
  destruct (C5_prefix_index_invariant (file_of "a b a b")) as [H _].
  apply (H 4%nat). vm_compute. repeat constructor.
Defined.

(** ** Counting the draws that select a word *)

Lemma filter_ext_in {A} (P1 P2 : A -> Prop)
    `{!forall x, Decision (P1 x), !forall x, Decision (P2 x)} (l : list A) :
  (forall x, x ∈ l -> (P1 x <-> P2 x)) -> filter P1 l = filter P2 l.
Proof.
  induction l as [|a l IH]; intros Hext; [done|].
  rewrite !filter_cons.
  assert (Ha : P1 a <-> P2 a) by (apply Hext; by left).
  rewrite IH by (intros x Hx; apply Hext; by right).
  repeat case_decide; tauto.
Qed.

Lemma length_filter_fmap {A B} (f : A -> B) (P : B -> Prop)
    `{!forall y, Decision (P y)} (l : list A) :
  length (filter P (f <$> l)) = length (filter (fun x => P (f x)) l).
Proof.
  induction l as [|a l IH]; [done|]. rewrite fmap_cons, !filter_cons.
  case_decide; simpl; by rewrite IH.
Qed.

(** As many positions of a list select [T] as the list has copies of [T]. *)
Lemma select_count (l : list string) T :
  length (filter (fun r => select l r = T) (seq 0 (length l))) =
  length (filter (fun x => x = T) l).
Proof.
  induction l as [|x l IH]; [done|].
  cbn [length seq]. rewrite <- fmap_S_seq, !filter_cons.
  change (select (x :: l) 0) with x.
  case_decide; simpl; rewrite length_filter_fmap; f_equal; exact IH.
Qed.

Lemma recorded_cons p q t calls :
  recorded p ((q, t) :: calls) =
  if decide (q = p) then t :: recorded p calls else recorded p calls.
Proof. unfold recorded. rewrite filter_cons. simpl. by case_decide. Qed.

Lemma recorded_count p T calls :
  length (filter (fun x => x = T) (rev (recorded p calls))) =
  length (filter (fun c => c = (p, T)) calls).
Proof.
  rewrite rev_reverse, filter_reverse, length_reverse.
  induction calls as [|[q t] calls IH]; [done|].
  rewrite recorded_cons, (filter_cons (fun c => c = (p, T))).
  destruct (decide (q = p)) as [->|Hq].
  - rewrite filter_cons. destruct (decide (t = T)) as [->|Ht].
    + rewrite decide_True by done. simpl. by rewrite IH.
    + rewrite decide_False by congruence. done.
  - rewrite decide_False by congruence. done.
Qed.

Lemma recorded_present p calls : p ∈ calls.*1 -> recorded p calls <> [].
Proof.
  unfold recorded. induction calls as [|[q t] calls IH]; simpl.
  - intros H. by apply elem_of_nil in H.
  - rewrite filter_cons. simpl. intros H. apply elem_of_cons in H as [->|H].
    + by rewrite decide_True.
    + case_decide; [done|]. by apply IH.
Qed.

(** C2. Uniform occurrence weighting. Let [sp] be a node of the table
    left by [build], [n] the length of its suffix list, and [T] a word.
    Then [n] is positive and is the number of calls of [add] made under the
    prefix of [sp]; the selection step of [generate] depends on the draw
    only through the index [rand () % n], which lies in [0, n); and the
    number of indices [r] in [0, n) for which the selection step picks [T]
    equals the number of times [T] was added under that prefix. *)
Theorem C2_uniform_occurrence_weighting f ptr sp T s :
  get (build f statetab0) ptr = Some sp ->
  (0 < length (suffixes sp))%nat /\
  length (suffixes sp) =
    length (recorded (prefix sp) (build_log (tokens f))) /\
  length (filter (fun r => drawn (build f statetab0) (fun _ => r) s ptr = T)
                 (seq 0 (length (suffixes sp)))) =
    length (filter (fun c => c = (prefix sp, T)) (build_log (tokens f))) /\
  forall rand,
    (rand (g_draws s) mod length (suffixes sp) < length (suffixes sp))%nat /\
    drawn (build f statetab0) rand s ptr =
      select (suffixes sp) (rand (g_draws s) mod length (suffixes sp)).
Proof.
  intros Hg. pose proof (build_rep f) as [Hok Hsufs Hhas].
  destruct (Hsufs sp) as [Hsuf Hin]; [by exists ptr|].
  assert (Hn : (0 < length (suffixes sp))%nat).
  { rewrite Hsuf, length_rev. apply recorded_present in Hin.
    destruct (recorded _ _); [done|simpl; lia]. }
  assert (Hat : suffixes_at (build f statetab0) ptr = suffixes sp).
  { unfold suffixes_at. by rewrite Hg. }
  split; [done|]. split; [by rewrite Hsuf at 1; rewrite length_rev|]. split.
  - rewrite <- recorded_count, <- Hsuf, <- select_count. f_equal.
    apply filter_ext_in. intros r Hr%elem_of_seq.
    unfold drawn. rewrite Hat. rewrite Nat.mod_small by lia. done.
  - intros rand. split; [apply Nat.mod_upper_bound; lia|].
    unfold drawn. by rewrite Hat.
Qed.

Lemma C2_uniform_occurrence_weighting_witness :
  length (filter
    (fun r => drawn (build (file_of "a b c a b d a b c") statetab0)
                (fun _ => r) gen_init (Z.to_nat (hash ["a"; "b"]%string), O)
              = "c"%string)
    (seq 0 3)) = 2%nat.
Proof.
  destruct (C2_uniform_occurrence_weighting (file_of "a b c a b d a b c")
              (Z.to_nat (hash ["a"; "b"]%string), O)
              {| prefix := ["a"; "b"]%string; suffixes := ["c"; "d"; "c"]%string |}
              "c"%string gen_init) as (_ & _ & H & _).
  - vm_compute. reflexivity.
  - exact H.
Defined.

(** ** The first pass of [generate] *)

Lemma bag_of_build f p :
  p ∈ (build_log (tokens f)).*1 ->
  bag_of (build f statetab0) p =
  Some (rev (recorded p (build_log (tokens f)))).
Proof.
  intros Hin. pose proof (build_rep f) as [Hok Hsufs Hhas].
  destruct (Hhas p Hin) as (sp & Hs & <-).
  rewrite (bag_of_stored _ _ Hok Hs). f_equal. by apply Hsufs.
Qed.

Lemma generate_zero tab nwords rand :
  nwords <= 0 -> generate nwords rand tab = stop gen_init StoppedByLengthLimit 0.
Proof.
  intros H. unfold generate. replace (Z.to_nat nwords) with O by lia.
  simpl. destruct (gen_step_cases tab nwords rand gen_init) as [[_ ->]|[Hi _]];
    [done|simpl in Hi; lia].
Qed.

(** The first pass when the start window has a single suffix [w]. *)
Lemma gen_step_first tab nwords rand w :
  bag_of tab start_prefix = Some [w] -> 1 <= nwords ->
  gen_step tab nwords rand gen_init =
  if decide (w = NONWORD) then sentinel_state gen_init
  else emit_state gen_init w.
Proof.
  intros Hbag Hn.
  assert (Hd : forall ptr,
    (lookup (g_prefix gen_init) false tab).1 = Some ptr ->
    suffixes_at tab ptr = [w] /\ drawn tab rand gen_init ptr = w).
  { intros ptr Hl. pose proof (suffixes_at_bag _ _ _ _ Hl Hbag) as Hs.
    split; [done|]. unfold drawn. rewrite Hs. simpl length.
    by rewrite Nat.mod_1_r. }
  destruct (gen_step_cases tab nwords rand gen_init)
    as [[Hi _]|[_ [[Hl _]|(ptr & Hl & [[He _]|[_ [[Hw ->]|[Hw ->]]]])]]].
  - simpl in Hi. lia.
  - apply bag_of_lookup in Hbag as [ptr Hp]. simpl in Hl. congruence.
  - destruct (Hd ptr Hl) as [Hs _]. congruence.
  - destruct (Hd ptr Hl) as [_ Hw']. rewrite decide_True by congruence. done.
  - destruct (Hd ptr Hl) as [_ Hw']. rewrite decide_False by congruence.
    by rewrite Hw'.
Qed.

Lemma slide_not_start w t :
  length w = NPREF -> t <> NONWORD -> slide w t <> start_prefix.
Proof.
  intros (a & b & ->)%length_NPREF Ht. unfold slide, start_prefix; simpl.
  congruence.
Qed.

(** Once a word has been read, no later call of [add] is made under the
    start window. *)
Lemma recorded_start_later ts w x :
  Forall (fun t => t <> NONWORD) ts -> w <> start_prefix -> length w = NPREF ->
  recorded start_prefix (calls_from w (ts ++ [x])) = [].
Proof.
  intros Hts. revert w. induction Hts as [|t ts Ht Hts IH]; intros w Hw Hl; simpl.
  - rewrite recorded_cons. by rewrite decide_False.
  - rewrite recorded_cons, decide_False by done.
    apply IH; [by apply slide_not_start|by apply slide_length].
Qed.

(** C10. Deterministic first word: when the input holds at least one word,
    the suffix list found under the start window after [build] is the
    single first word of the input, and [generate] with [nwords >= 1]
    prints that word first, whatever the draws are. *)
Theorem C10_first_token f t ts :
  tokens f = t :: ts ->
  bag_of (build f statetab0) start_prefix = Some [t] /\
  forall nwords rand, 1 <= nwords ->
    exists rest, g_out (generate nwords rand (build f statetab0)) = t :: rest.
Proof.
  intros Hts. pose proof (tokens_not_NONWORD f) as Hnw. rewrite Hts in Hnw.
  apply Forall_cons in Hnw as [Ht Hnw].
  assert (Hbag : bag_of (build f statetab0) start_prefix = Some [t]).
  { rewrite bag_of_build.
    - rewrite Hts, build_log_calls. cbn [app calls_from]. rewrite recorded_cons.
      rewrite decide_True by done.
      rewrite recorded_start_later;
        [done|done|by apply slide_not_start|by apply slide_length].
    - apply build_log_windows. exists O. split; [lia|done]. }
  split; [done|]. intros nwords rand Hn.
  unfold generate. simpl gen_run.
  rewrite (gen_step_first _ _ _ t Hbag Hn), decide_False by done.
  destruct (gen_run_out (Z.to_nat nwords) (build f statetab0) nwords rand
              (emit_state gen_init t)) as [rest ->].
  by exists rest.
Qed.

Lemma C10_first_token_witness :
  bag_of (build (file_of "x y x z") statetab0) start_prefix = Some ["x"%string].
Proof.
  apply (C10_first_token (file_of "x y x z") "x"%string ["y"; "x"; "z"]%string).
  vm_compute. reflexivity.
Defined.

(** C6. Empty input: when the input holds no word, the only node of the
    table left by [build] maps the start window to the single suffix
    [NONWORD]; [generate] then prints nothing for any [nwords] and any
    draws and ends in a stopped state, which for [nwords >= 1] is the stop
    on the sentinel in the first pass. *)
Theorem C6_empty_input f nwords rand :
  tokens f = [] ->
  (forall sp, stored (build f statetab0) sp ->
     sp = {| prefix := start_prefix; suffixes := [NONWORD] |}) /\
  bag_of (build f statetab0) start_prefix = Some [NONWORD] /\
  g_out (generate nwords rand (build f statetab0)) = [] /\
  is_stopped (g_status (generate nwords rand (build f statetab0))) = true /\
  (1 <= nwords ->
   generate nwords rand (build f statetab0) = sentinel_state gen_init).
Proof.
  intros Hts. pose proof (build_rep f) as [Hok Hsufs Hhas].
  assert (Hlog : build_log (tokens f) = [(start_prefix, NONWORD)]).
  { rewrite Hts. rewrite build_log_calls. done. }
  assert (Hbag : bag_of (build f statetab0) start_prefix = Some [NONWORD]).
  { rewrite bag_of_build; rewrite Hlog; [done|]. simpl. by left. }
  assert (Hgen : 1 <= nwords ->
    generate nwords rand (build f statetab0) = sentinel_state gen_init).
  { intros Hn. unfold generate. simpl gen_run.
    rewrite (gen_step_first _ _ _ NONWORD Hbag Hn), decide_True by done.
    by apply gen_run_stopped. }
  split; [|split; [done|]].
  - intros sp Hs. destruct (Hsufs sp Hs) as [Hsuf Hin]. rewrite Hlog in *.
    simpl in Hin. apply list_elem_of_singleton in Hin.
    apply State_eq; simpl; [done|]. rewrite Hsuf, Hin. done.
  - destruct (Z.le_gt_cases 1 nwords) as [Hn|Hn].
    + rewrite (Hgen Hn). by repeat split.
    + rewrite generate_zero by lia. repeat split; try done. lia.
Qed.

Lemma C6_empty_input_witness :
  g_out (generate 5 (fun k => k) (build (file_of "  
 ") statetab0)) = [] /\
  generate 5 (fun k => k) (build (file_of "  
 ") statetab0) = sentinel_state gen_init.
Proof.
  destruct (C6_empty_input (file_of "  
 ") 5 (fun k => k)) as (_ & _ & H1 & _ & H2).
  - vm_compute. reflexivity.
  - split; [exact H1|]. apply H2. vm_compute. discriminate.
Defined.

(** ** The golden scenario *)

Lemma stored_forallb (P : State -> bool) (tab : Table) sp :
  forallb (forallb P) tab = true -> stored tab sp -> P sp = true.
Proof.
  intros H [[h j] Hg]. unfold get in Hg. simpl in Hg.
  destruct (tab !! h) as [chain|] eqn:Eh; simpl in Hg; [|done].
  rewrite forallb_forall in H.
  apply list_elem_of_lookup_2, list_elem_of_In, H in Eh.
  rewrite forallb_forall in Eh.
  by apply list_elem_of_lookup_2, list_elem_of_In, Eh in Hg.
Qed.

Lemma golden_tab_singletons sp :
  stored golden_tab sp -> length (suffixes sp) = 1%nat.
Proof.
  intros Hs. apply Nat.eqb_eq.
  apply (stored_forallb (fun sp => Nat.eqb (length (suffixes sp)) 1) golden_tab);
    [|done].
  vm_compute. reflexivity.
Qed.

Lemma golden_tab_bags :
  bag_of golden_tab ["the"; "quick"]%string = Some ["fox"%string] /\
  bag_of golden_tab ["quick"; "fox"]%string = Some ["the"%string] /\
  bag_of golden_tab ["fox"; "the"]%string = Some ["lazy"%string] /\
  bag_of golden_tab ["the"; "lazy"]%string = Some ["fox"%string] /\
  bag_of golden_tab ["lazy"; "fox"]%string = Some [NONWORD].
Proof. vm_compute. repeat split. Qed.

Lemma golden_tab_generate :
  generate 10 (fun _ => O) golden_tab =
  {| g_i := 6; g_prefix := ["lazy"; "fox"]%string; g_draws := 7;
     g_out := golden; g_iters := 7; g_status := StoppedBySentinel |}.
Proof. vm_compute. reflexivity. Qed.

Lemma build_golden f : tokens f = golden -> build f statetab0 = golden_tab.
Proof. intros Hts. rewrite build_train, Hts. reflexivity. Qed.

(** C1. The golden scenario: for an input whose words are the, quick,
    fox, the, lazy, fox, the table left by [build] maps (the, quick) to
    {fox}, (quick, fox) to {the}, (fox, the) to {lazy}, (the, lazy) to
    {fox} and (lazy, fox) to {NONWORD}; and for every stream of draws
    [generate 10] prints exactly the, quick, fox, the, lazy, fox and stops
    on the sentinel. *)
Theorem C1_golden_scenario f :
  tokens f = golden ->
  bag_of (build f statetab0) ["the"; "quick"]%string = Some ["fox"%string] /\
  bag_of (build f statetab0) ["quick"; "fox"]%string = Some ["the"%string] /\
  bag_of (build f statetab0) ["fox"; "the"]%string = Some ["lazy"%string] /\
  bag_of (build f statetab0) ["the"; "lazy"]%string = Some ["fox"%string] /\
  bag_of (build f statetab0) ["lazy"; "fox"]%string = Some [NONWORD] /\
  forall rand,
    g_out (generate 10 rand (build f statetab0)) = golden /\
    g_status (generate 10 rand (build f statetab0)) = StoppedBySentinel /\
    stdout_text (g_out (generate 10 rand (build f statetab0))) =
      "the quick fox the lazy fox 
"%string.
Proof.
  intros Hts. rewrite (build_golden f Hts).
  destruct golden_tab_bags as (H1 & H2 & H3 & H4 & H5).
  do 5 (split; [assumption|]).
  intros rand.
  assert (E : generate 10 rand golden_tab = generate 10 (fun _ => O) golden_tab).
  { unfold generate. apply gen_run_ext; [apply gen_inv_init|].
    intros k sp _ Hs. rewrite (golden_tab_singletons sp Hs).
    by rewrite !Nat.mod_1_r. }
  rewrite E, golden_tab_generate. cbn [g_out g_status].
  split; [reflexivity|]. split; reflexivity.
Qed.

Lemma C1_golden_scenario_witness :
  g_out (generate 10 (fun k => k)
           (build (file_of "the quick fox the lazy fox") statetab0)) = golden.
Proof.
  destruct (C1_golden_scenario (file_of "the quick fox the lazy fox"))
    as (_ & _ & _ & _ & _ & H).
  - vm_compute. reflexivity.
  - apply (H (fun k => k)).
Defined.

(** * Further properties of the code *)

(** ** hash *)

Lemma hash_str_app h a b :
  hash_str h (a +:+ b) = hash_str (hash_str h a) b.
Proof. revert h. induction a as [|c a IH]; intros h; simpl; [done|]. apply IH. Qed.

(** X1. [hash] always returns a valid index into [statetab]. *)
Theorem X1_hash_in_range p :
  0 <= hash p < HASHSIZE /\
  is_Some (statetab0 !! Z.to_nat (hash p)).
Proof.
  split.
  - unfold hash. apply Z.mod_pos_bound. done.
  - apply lookup_lt_is_Some. unfold statetab0. rewrite length_replicate.
    apply hash_range.
Qed.

(** X2. [hash] runs over the bytes of the prefix words one after the other
    and puts nothing between them: two prefixes whose words concatenate to
    the same byte string get the same bucket, however the bytes are split
    into words. *)
Theorem X2_hash_concat p q :
  length p = NPREF -> length q = NPREF ->
  foldr String.append EmptyString p = foldr String.append EmptyString q ->
  hash p = hash q.
Proof.
  intros (a & b & ->)%length_NPREF (c & d & ->)%length_NPREF. cbn [foldr].
  assert (Hnil : forall s, s +:+ EmptyString = s).
  { intros s. induction s as [|x s IH]; [done|].
    change (String x (s +:+ EmptyString) = String x s). by rewrite IH. }
  rewrite !Hnil. intros E. unfold hash, NPREF, word_at. simpl.
  by rewrite <- !hash_str_app, E.
Qed.

Lemma X2_hash_concat_witness :
  hash ["ab"; "c"]%string = hash ["a"; "bc"]%string.
Proof. apply X2_hash_concat; reflexivity. Defined.

(** ** lookup with creation *)

Lemma scan_chain_head p sp chain :
  length p = NPREF -> prefix sp = p -> scan_chain p (sp :: chain) 0 = Some O.
Proof.
  intros Hp E. simpl. rewrite prefix_scan_spec by congruence.
  by rewrite bool_decide_eq_true_2.
Qed.

(** X3. [lookup] with [create] set returns a pointer to a node whose prefix
    is the one asked for, and keeps the table invariant. When a node with
    that prefix was stored, the table is unchanged and the pointer is the
    one the non-creating call returns; otherwise the node is new, has no
    suffix, sits at the head of the chain of its bucket, and every node
    stored before is still stored. *)
Theorem X3_lookup_create tab p :
  table_ok tab -> length p = NPREF ->
  table_ok (lookup p true tab).2 /\
  (exists ptr sp, (lookup p true tab).1 = Some ptr /\
     get (lookup p true tab).2 ptr = Some sp /\ prefix sp = p) /\
  ((exists sp0, stored tab sp0 /\ prefix sp0 = p) ->
     (lookup p true tab).2 = tab /\
     (lookup p true tab).1 = (lookup p false tab).1) /\
  ((forall sp0, stored tab sp0 -> prefix sp0 <> p) ->
     (lookup p true tab).1 = Some (Z.to_nat (hash p), O) /\
     get (lookup p true tab).2 (Z.to_nat (hash p), O) =
       Some {| prefix := p; suffixes := [] |} /\
     forall sp', stored (lookup p true tab).2 sp' <->
       sp' = {| prefix := p; suffixes := [] |} \/ stored tab sp').
Proof.
  intros Hok Hp.
  split; [|split; [by apply lookup_create_valid|split]].
  - destruct (lookup_cases p true tab Hok Hp) as [(ptr & sp & -> & _)|[Hnew ->]];
      [done|by apply table_ok_create].
  - intros (sp0 & Hs0 & E0).
    destruct (lookup_cases p true tab Hok Hp) as [(ptr & sp & Ht & Hg & E)|[Hnew _]].
    + rewrite Ht. split; [done|]. simpl.
      destruct (lookup_cases p false tab Hok Hp)
        as [(ptr' & sp' & -> & Hg' & E')|[Hnew _]]; simpl.
      * f_equal. eapply table_ok_ptr_inj; eauto. congruence.
      * exfalso. by apply (Hnew sp0).
    + exfalso. by apply (Hnew sp0).
  - intros Hnone.
    assert (Hh : (Z.to_nat (hash p) < length tab)%nat).
    { rewrite (ok_len _ Hok). apply hash_range. }
    assert (Hns : new_state p = {| prefix := p; suffixes := [] |}).
    { apply State_eq; [by apply new_state_prefix|done]. }
    destruct (lookup_cases p true tab Hok Hp) as [(ptr & sp & _ & Hg & E)|[_ ->]].
    { exfalso. apply (Hnone sp); [by exists ptr|done]. }
    simpl. split; [done|]. rewrite Hns. split.
    + rewrite get_create by done. simpl. by rewrite decide_True.
    + intros sp'. split.
      * intros [[h j] Hg]. rewrite get_create in Hg by done. simpl in Hg.
        case_decide as Eh; [subst h; destruct j as [|j]|].
        -- left. congruence.
        -- right. by exists (Z.to_nat (hash p), j).
        -- right. by exists (h, j).
      * intros [->|[[h j] Hg]].
        -- exists (Z.to_nat (hash p), O). rewrite get_create by done. simpl.
           by rewrite decide_True.
        -- destruct (decide (h = Z.to_nat (hash p))) as [->|Hne].
           ++ exists (Z.to_nat (hash p), S j). rewrite get_create by done. simpl.
              by rewrite decide_True.
           ++ exists (h, j). rewrite get_create by done. simpl.
              by rewrite decide_False.
Qed.

Lemma X3_lookup_create_witness :
  (lookup ["x"; "y"]%string true statetab0).1 =
  Some (Z.to_nat (hash ["x"; "y"]%string), O).
Proof.
  destruct (X3_lookup_create statetab0 ["x"; "y"]%string table_ok_statetab0 eq_refl)
    as (_ & _ & _ & H).
  apply H. intros sp0 [ptr Hg]. rewrite get_statetab0 in Hg. discriminate.
Defined.

(** X4. Creation followed by a query: after [lookup] has been called with
    [create] set, the non-creating call for the same prefix returns the
    same pointer, and a second creating call returns it too and leaves the
    table as the first call left it. *)
Theorem X4_lookup_create_then_lookup tab p create :
  table_ok tab -> length p = NPREF ->
  lookup p create (lookup p true tab).2 = lookup p true tab.
Proof.
  intros Hok Hp. unfold lookup at 2 3.
  destruct (scan_chain p (bucket tab (Z.to_nat (hash p))) 0) as [j|] eqn:E; simpl.
  - unfold lookup. by rewrite E.
  - unfold lookup. rewrite bucket_insert_eq
      by (rewrite (ok_len _ Hok); apply hash_range).
    rewrite scan_chain_head; [done|done|by apply new_state_prefix].
Qed.

Lemma X4_lookup_create_then_lookup_witness :
  lookup ["x"; "y"]%string false (lookup ["x"; "y"]%string true statetab0).2 =
  lookup ["x"; "y"]%string true statetab0.
Proof.
  apply X4_lookup_create_then_lookup; [exact table_ok_statetab0|reflexivity].
Defined.

(** ** add *)

Lemma bag_of_None tab q :
  table_ok tab -> length q = NPREF ->
  (forall sp, stored tab sp -> prefix sp <> q) -> bag_of tab q = None.
Proof.
  intros Hok Hq Hnone. unfold bag_of.
  destruct (lookup_cases q false tab Hok Hq) as [(ptr & sp & _ & Hg & E)|[_ ->]];
    [|done].
  exfalso. apply (Hnone sp); [by exists ptr|done].
Qed.

(** X5. What [add] leaves behind: the caller's window has moved on by the
    word, the table invariant is kept, the suffix list found under the old
    window is the word in front of what was found there before (of nothing
    when the window was new), and the list found under any other window is
    what it was. *)
Theorem X5_add_then_lookup tab p t q :
  table_ok tab -> length p = NPREF -> length q = NPREF ->
  (add (p, tab) t).1 = slide p t /\
  table_ok (add (p, tab) t).2 /\
  bag_of (add (p, tab) t).2 q =
    if decide (q = p) then Some (t :: default [] (bag_of tab p))
    else bag_of tab q.
Proof.
  intros Hok Hp Hq. destruct (add_spec p tab t Hok Hp) as (H1 & Hok' & Hst).
  split; [done|]. split; [done|].
  destruct (decide (q = p)) as [->|Hne].
  - destruct (stored_dec p tab Hok Hp) as [(sp & Hs & E)|Hnone].
    + rewrite <- E at 3. rewrite (bag_of_stored _ _ Hok Hs). simpl.
      assert (Hs' : stored (add (p, tab) t).2 (push_suffix t sp)).
      { apply Hst. left. split; [done|]. left. by exists sp. }
      rewrite <- E at 2.
      apply (bag_of_stored _ (push_suffix t sp) Hok' Hs').
    + rewrite (bag_of_None _ _ Hok Hp Hnone). simpl.
      assert (Hs' : stored (add (p, tab) t).2 {| prefix := p; suffixes := [t] |}).
      { apply Hst. left. split; [done|]. by right. }
      apply (bag_of_stored _ _ Hok' Hs').
  - destruct (stored_dec q tab Hok Hq) as [(sp & Hs & E)|Hnone].
    + rewrite <- E. rewrite (bag_of_stored _ _ Hok Hs).
      apply (bag_of_stored _ _ Hok'). apply Hst. right. split; [congruence|done].
    + rewrite (bag_of_None _ _ Hok Hq Hnone).
      apply (bag_of_None _ _ Hok' Hq). intros sp' Hs' E'.
      apply Hst in Hs' as [[E'' _]|[_ Hs']]; [congruence|].
      by apply (Hnone sp').
Qed.

Lemma X5_add_then_lookup_witness :
  bag_of (add (["a"; "b"]%string, statetab0) "c").2 ["a"; "b"]%string
  = Some ["c"%string].
Proof.
  destruct (X5_add_then_lookup statetab0 ["a"; "b"]%string "c"
              ["a"; "b"]%string table_ok_statetab0 eq_refl eq_refl)
    as (_ & _ & H).
  rewrite H. reflexivity.
Defined.

(** ** The window *)

Lemma slide_drop w t : length w = NPREF -> slide w t = drop 1 (w ++ [t]).
Proof. by intros (a & b & ->)%length_NPREF. Qed.

Lemma fold_slide_drop ts w :
  length w = NPREF -> fold_left slide ts w = drop (length ts) (w ++ ts).
Proof.
  revert w. induction ts as [|t ts IH]; intros w Hw; simpl.
  - by rewrite app_nil_r.
  - rewrite IH by (by apply slide_length). rewrite slide_drop by done.
    by destruct (length_NPREF w Hw) as (a & b & ->).
Qed.

(** X6. The window of [build] always holds the last [NPREF] of the words
    read so far, with [NONWORD] standing in for the words before the
    first: before word [i] is read it is the last [NPREF] entries of the
    start window followed by the first [i] words, and when the loop of
    [build] is left it is the last [NPREF] entries of the start window
    followed by all the words. *)
Theorem X6_window_last_words f tab :
  (forall i, (i <= length (tokens f))%nat ->
     window_at (tokens f) i = drop i (start_prefix ++ take i (tokens f))) /\
  (build_loop (length f) f (start_prefix, tab)).1 =
    drop (length (tokens f)) (start_prefix ++ tokens f) /\
  (forall i, length (window_at (tokens f) i) = NPREF).
Proof.
  split; [|split].
  - intros i Hi. rewrite window_at_slide, fold_slide_drop by done.
    by rewrite length_take, Nat.min_l.
  - rewrite build_loop_train, train_fst. simpl. by apply fold_slide_drop.
  - intros i. apply window_at_length.
Qed.

Lemma X6_window_last_words_witness :
  window_at (tokens (file_of "a b c d")) 3 = ["b"; "c"]%string.
Proof.
  destruct (X6_window_last_words (file_of "a b c d") statetab0) as (H & _).
  rewrite (H 3%nat); [reflexivity|]. vm_compute. repeat constructor.
Defined.

(** ** Reading words *)

(** The loop of [build] reads the file word by word, whatever its length. *)
Lemma tokens_unfold f :
  tokens f =
  match fscanf_s f with
  | None => []
  | Some (buf, f') => c_str buf :: tokens f'
  end.
Proof.
  unfold tokens. destruct f as [|c f]; [done|].
  cbn [length read_words]. destruct (fscanf_s (c :: f)) as [[buf f']|] eqn:E; [|done].
  pose proof (fscanf_s_spec _ _ _ E) as (_ & _ & Hl). simpl in Hl.
  simpl. f_equal. apply read_words_enough; lia.
Qed.

Lemma skip_space_all ws g :
  Forall (fun c => isspace c = true) ws -> skip_space (ws ++ g) = skip_space g.
Proof. induction 1 as [|c ws Hc _ IH]; simpl; [done|]. by rewrite Hc. Qed.

Lemma scan_word_word w buf rest :
  Forall (fun c => isspace c = false) buf -> (length buf <= w)%nat ->
  (length buf = w \/ rest = [] \/ exists c r, rest = c :: r /\ isspace c = true) ->
  scan_word w (buf ++ rest) = (buf, rest).
Proof.
  intros Hb. revert w. induction Hb as [|c buf Hc Hb IH]; intros w Hl Hend; simpl in *.
  - destruct Hend as [<-|[->|(c & r & -> & Hc)]]; [done|by destruct w|].
    destruct w; [done|]. simpl. by rewrite Hc.
  - destruct w as [|w]; [lia|]. simpl. rewrite Hc.
    rewrite IH; [done|lia|]. destruct Hend as [?|?]; [left; lia|by right].
Qed.

Lemma c_str_no_NUL buf :
  Forall (fun c => uchar c <> 0) buf -> c_str buf = string_of_list_ascii buf.
Proof.
  induction 1 as [|c buf Hc _ IH]; simpl; [done|].
  destruct (Z.eqb_spec (uchar c) 0); [done|]. by rewrite IH.
Qed.

Lemma c_str_spec buf :
  exists rest, buf = list_ascii_of_string (c_str buf) ++ rest /\
    Forall (fun c => uchar c <> 0) (list_ascii_of_string (c_str buf)).
Proof.
  induction buf as [|c buf (rest & E & H)]; simpl.
  - by exists [].
  - destruct (Z.eqb_spec (uchar c) 0) as [E0|E0]; simpl.
    + exists (c :: buf). split; [done|constructor].
    + exists rest. split; [by rewrite <- E|by constructor].
Qed.

(** X7. Every word [build] reads is a C string of at most [MAX_WORD - 1]
    bytes, none of which is white space or NUL; in particular no word is
    the sentinel. *)
Theorem X7_tokens_wellformed f :
  Forall (fun t =>
    (length (list_ascii_of_string t) <= MAX_WORD - 1)%nat /\
    Forall word_byte (list_ascii_of_string t) /\ t <> NONWORD) (tokens f).
Proof.
  unfold tokens. generalize (length f) as fuel. intros fuel. revert f.
  induction fuel as [|fuel IH]; intros f; simpl; [constructor|].
  destruct (fscanf_s f) as [[buf f']|] eqn:E; [|constructor].
  constructor; [|apply IH].
  pose proof (fscanf_s_spec _ _ _ E) as (Hb & Hl & _).
  destruct (c_str_spec buf) as (rest & Hbuf & Hnul).
  assert (Hb1 : Forall (fun c => isspace c = false)
                  (list_ascii_of_string (c_str buf))).
  { rewrite Hbuf in Hb. by apply Forall_app in Hb as [? _]. }
  assert (Hl1 : (length (list_ascii_of_string (c_str buf)) <= length buf)%nat).
  { rewrite Hbuf at 2. rewrite length_app. lia. }
  split; [unfold MAX_WORD in *; lia|]. split.
  - rewrite Forall_forall in Hb1, Hnul. apply Forall_forall. intros c Hc.
    split; [by apply Hb1|by apply Hnul].
  - by apply c_str_not_NONWORD.
Qed.

Lemma fscanf_s_skip c f : isspace c = true -> fscanf_s (c :: f) = fscanf_s f.
Proof. intros Hc. unfold fscanf_s. simpl. by rewrite Hc. Qed.

Lemma tokens_skip_space c f : isspace c = true -> tokens (c :: f) = tokens f.
Proof.
  intros Hc. rewrite (tokens_unfold (c :: f)), (tokens_unfold f).
  by rewrite fscanf_s_skip.
Qed.

(** A word, as [fscanf] finds it after white space. *)
Lemma fscanf_s_word ws buf rest :
  Forall (fun c => isspace c = true) ws ->
  buf <> [] -> Forall (fun c => isspace c = false) buf ->
  (length buf <= MAX_WORD - 1)%nat ->
  (length buf = (MAX_WORD - 1)%nat \/ rest = [] \/
   exists c r, rest = c :: r /\ isspace c = true) ->
  fscanf_s (ws ++ buf ++ rest) = Some (buf, rest).
Proof.
  intros Hws Hne Hsp Hl Hend.
  unfold fscanf_s. rewrite skip_space_all by done.
  destruct buf as [|c b]; [done|].
  assert (Hc : isspace c = false) by (by inversion Hsp).
  change ((c :: b) ++ rest) with (c :: (b ++ rest)).
  cbn [skip_space]. rewrite Hc.
  change (c :: (b ++ rest)) with ((c :: b) ++ rest).
  change (MAX_WORD - 1)%nat with 99%nat in *.
  by rewrite (scan_word_word 99 (c :: b) rest).
Qed.

(** X8. One pass of the reading loop: after any white space, a run of word
    bytes that is at most [MAX_WORD - 1] long and is followed by white
    space or by the end of the file is read as one word; a run of exactly
    [MAX_WORD - 1] word bytes is read as one word whatever follows, so a
    longer run is cut after [MAX_WORD - 1] bytes. Reading goes on with what
    follows the run. *)
Theorem X8_tokens_step ws buf rest :
  Forall (fun c => isspace c = true) ws ->
  buf <> [] -> Forall word_byte buf -> (length buf <= MAX_WORD - 1)%nat ->
  (length buf = (MAX_WORD - 1)%nat \/ rest = [] \/
   exists c r, rest = c :: r /\ isspace c = true) ->
  tokens (ws ++ buf ++ rest) = string_of_list_ascii buf :: tokens rest.
Proof.
  intros Hws Hne Hb Hl Hend.
  assert (Hsp : Forall (fun c => isspace c = false) buf).
  { eapply Forall_impl; [exact Hb|]. by intros c [? _]. }
  assert (Hnul : Forall (fun c => uchar c <> 0) buf).
  { eapply Forall_impl; [exact Hb|]. by intros c [_ ?]. }
  rewrite tokens_unfold, (fscanf_s_word ws buf rest) by done.
  by rewrite c_str_no_NUL.
Qed.

Lemma X8_tokens_step_witness :
  tokens (file_of "  ab cd") = "ab"%string :: tokens (file_of " cd").
Proof.
  apply (X8_tokens_step (file_of "  ") (file_of "ab") (file_of " cd")).
  - repeat constructor.
  - discriminate.
  - repeat constructor; vm_compute; discriminate.
  - vm_compute. lia.
  - right. right. eexists _, _. split; reflexivity.
Defined.

Lemma skip_space_nil f :
  skip_space f = [] <-> Forall (fun c => isspace c = true) f.
Proof.
  induction f as [|c f IH]; simpl; [by split; [constructor|]|].
  destruct (isspace c) eqn:E.
  - rewrite IH. split; [by constructor|by inversion 1].
  - split; [done|]. inversion 1. congruence.
Qed.

(** X9. [build] reads no word exactly when every byte of the file is white
    space (an empty file included). *)
Theorem X9_tokens_nil_iff f :
  tokens f = [] <-> Forall (fun c => isspace c = true) f.
Proof.
  rewrite <- skip_space_nil, tokens_unfold. unfold fscanf_s.
  destruct (skip_space f) as [|c f1]; [done|].
  destruct (scan_word (MAX_WORD - 1) (c :: f1)). done.
Qed.

Lemma X9_tokens_nil_iff_witness :
  tokens (file_of "   ") = [].
Proof. apply X9_tokens_nil_iff. repeat constructor. Defined.

Lemma list_ascii_of_string_app a b :
  list_ascii_of_string (a +:+ b) =
  list_ascii_of_string a ++ list_ascii_of_string b.
Proof.
  induction a as [|c a IH]; [done|].
  change (c :: list_ascii_of_string (a +:+ b) =
          c :: (list_ascii_of_string a ++ list_ascii_of_string b)).
  by rewrite IH.
Qed.

(** X10. What [generate] prints can be read back: for words that have at
    least one and at most [MAX_WORD - 1] bytes, none of them white space
    or NUL, the text [generate] writes for them (every word followed by a
    space, then a newline) is read by the loop of [build] as exactly those
    words. *)
Theorem X10_print_then_read ws :
  Forall wordlike ws -> tokens (file_of (stdout_text ws)) = ws.
Proof.
  induction 1 as [|w ws (Hne & Hl & Hb) _ IH]; [done|].
  unfold file_of in *. cbn [stdout_text fold_right].
  fold (stdout_text ws). rewrite !list_ascii_of_string_app.
  change (list_ascii_of_string " ") with [" "%char]. cbn [app].
  assert (Hsp : Forall (fun c => isspace c = false) (list_ascii_of_string w)).
  { eapply Forall_impl; [exact Hb|]. by intros c [? _]. }
  assert (Hnul : Forall (fun c => uchar c <> 0) (list_ascii_of_string w)).
  { eapply Forall_impl; [exact Hb|]. by intros c [_ ?]. }
  pose proof (fscanf_s_word [] (list_ascii_of_string w)
                (" "%char :: list_ascii_of_string (stdout_text ws))) as Hw.
  cbn [app] in Hw. rewrite tokens_unfold, Hw; try done.
  - rewrite c_str_no_NUL, string_of_list_ascii_of_string by done. f_equal.
    by rewrite tokens_skip_space.
  - by destruct w.
  - right. right. eexists _, _. split; reflexivity.
Qed.

Lemma X10_print_then_read_witness :
  tokens (file_of (stdout_text ["the"; "lazy"; "fox"]%string)) =
  ["the"; "lazy"; "fox"]%string.
Proof.
  apply X10_print_then_read.
  repeat constructor; try discriminate; vm_compute; try discriminate; lia.
Defined.

(** ** Generating from a table left by build *)

Lemma build_log_elem ts p w :
  (p, w) ∈ build_log ts <->
  exists i, (i <= length ts)%nat /\ p = window_at ts i /\
            (ts ++ [NONWORD]) !! i = Some w.
Proof.
  split.
  - intros [i Hi]%list_elem_of_lookup.
    pose proof (lookup_lt_Some _ _ _ Hi) as Hlt. rewrite build_log_length in Hlt.
    destruct (lookup_lt_is_Some_2 (ts ++ [NONWORD]) i) as [x Hx].
    { rewrite length_app. simpl. lia. }
    rewrite (build_log_lookup _ _ _ Hx) in Hi. injection Hi as <- <-.
    exists i. split; [lia|done].
  - intros (i & _ & -> & Hx). eapply list_elem_of_lookup_2.
    by apply build_log_lookup.
Qed.

Lemma recorded_elem p w calls : w ∈ recorded p calls <-> (p, w) ∈ calls.
Proof.
  induction calls as [|[q t] calls IH].
  - split; intros H; by apply elem_of_nil in H.
  - rewrite recorded_cons, elem_of_cons. case_decide as E.
    + subst q. rewrite elem_of_cons, IH. split; intros [?|?]; try tauto.
      * left. congruence.
      * left. congruence.
    + rewrite IH. split; [tauto|]. intros [?|?]; [congruence|done].
Qed.

Lemma select_elem (l : list string) r : (r < length l)%nat -> select l r ∈ l.
Proof.
  intros Hr. destruct (lookup_lt_is_Some_2 l r Hr) as [w Hw].
  rewrite (select_lookup _ _ _ Hw). by eapply list_elem_of_lookup_2.
Qed.

Lemma emit_prefix_slide (p : list string) w :
  length p = NPREF ->
  <[1%nat := w]> (<[0%nat := word_at p 1]> p) = slide p w.
Proof. by intros (a & b & ->)%length_NPREF. Qed.

Lemma calls_from_snoc w ts t :
  calls_from w (ts ++ [t]) = calls_from w ts ++ [(fold_left slide ts w, t)].
Proof.
  revert w. induction ts as [|x ts IH]; intros w; simpl; [done|]. by rewrite IH.
Qed.

Lemma window_at_S ts i w :
  ts !! i = Some w -> slide (window_at ts i) w = window_at ts (S i).
Proof.
  intros Hi. rewrite !window_at_slide, (take_S_r _ _ _ Hi), fold_left_app. done.
Qed.

Lemma gen_ok_init ts nwords : gen_ok ts nwords gen_init.
Proof.
  unfold gen_ok, gen_init; simpl. split; [done|]. split.
  - exists O. split; [lia|done].
  - split; [|done]. intros c Hc. by apply elem_of_nil in Hc.
Qed.

(** A pass of the loop on the table of [build] keeps [gen_ok]. *)
Lemma gen_ok_step f nwords rand s :
  gen_ok (tokens f) nwords s -> g_status s = Running ->
  gen_ok (tokens f) nwords (gen_step (build f statetab0) nwords rand s).
Proof.
  intros (Hpre & (i & Hi & Hwin) & Hcalls & Hm & He & Hsen & Hlim) Hrun.
  assert (Hlen : length (g_prefix s) = NPREF)
    by (rewrite Hwin; apply window_at_length).
  assert (Hbag : bag_of (build f statetab0) (g_prefix s) =
                 Some (rev (recorded (g_prefix s) (build_log (tokens f))))).
  { apply bag_of_build. apply build_log_windows. by exists i. }
  assert (Hrec : recorded (g_prefix s) (build_log (tokens f)) <> []).
  { apply recorded_present, build_log_windows. by exists i. }
  destruct (gen_step_cases (build f statetab0) nwords rand s)
    as [[Hn ->]|[Hn [[Hl _]|(ptr & Hl & Hcase)]]].
  - unfold gen_ok; simpl. split; [done|]. split; [by exists i|].
    repeat split; try done.
  - apply bag_of_lookup in Hbag as [ptr Hp]. congruence.
  - pose proof (suffixes_at_bag _ _ _ _ Hl Hbag) as Hs.
    assert (Hdr : (g_prefix s, drawn (build f statetab0) rand s ptr)
                  ∈ build_log (tokens f)).
    { apply recorded_elem. rewrite <- (rev_involutive (recorded _ _)).
      rewrite <- Hs. apply list_elem_of_In, in_rev, list_elem_of_In.
      rewrite rev_involutive. unfold drawn. apply select_elem.
      apply Nat.mod_upper_bound. rewrite Hs, length_rev.
      destruct (recorded _ _); [done|simpl; lia]. }
    destruct Hcase as [[Hem _]|[_ [[Hw ->]|[Hw ->]]]].
    + rewrite Hs in Hem. exfalso. apply Hrec.
      by rewrite <- (rev_involutive (recorded _ _)), Hem.
    + unfold gen_ok; simpl. split; [done|]. split; [by exists i|].
      repeat split; try done. intros _.
      rewrite Hw in Hdr. apply build_log_elem in Hdr as (k & Hk & -> & Hx).
      destruct (decide (k = length (tokens f))) as [->|Hne]; [done|].
      rewrite lookup_app_l in Hx by lia.
      pose proof (tokens_not_NONWORD f) as Hnw. rewrite Forall_forall in Hnw.
      exfalso. apply (Hnw NONWORD); [|done].
      by eapply list_elem_of_lookup_2.
    + unfold gen_ok; simpl. rewrite emit_prefix_slide by done.
      set (w := drawn (build f statetab0) rand s ptr) in *.
      split; [by rewrite fold_left_app, <- Hpre|]. split.
      * apply build_log_elem in Hdr as (k & Hk & Hpk & Hx).
        destruct (decide (k = length (tokens f))) as [->|Hne].
        { rewrite list_lookup_middle in Hx by done. congruence. }
        rewrite lookup_app_l in Hx by lia.
        exists (S k). split; [lia|]. rewrite Hpk. by apply window_at_S.
      * repeat split; try done.
        intros c. rewrite calls_from_snoc, elem_of_app, list_elem_of_singleton.
        intros [Hc| ->]; [by apply Hcalls|]. by rewrite <- Hpre.
Qed.

Lemma gen_ok_run f fuel nwords rand s :
  gen_ok (tokens f) nwords s ->
  gen_ok (tokens f) nwords (gen_run fuel (build f statetab0) nwords rand s).
Proof.
  revert s. induction fuel as [|fuel IH]; intros s Hok; simpl; [done|].
  destruct (g_status s) eqn:E; try done. by apply IH, gen_ok_step.
Qed.

Lemma calls_from_lookup w ts k t :
  ts !! k = Some t ->
  calls_from w ts !! k = Some (fold_left slide (take k ts) w, t).
Proof.
  revert w k. induction ts as [|x ts IH]; intros w [|k] H; simpl in *; try done.
  - by injection H as ->.
  - by apply IH.
Qed.

(** X11. [generate] only follows the input: a word printed at position
    [k] is a word of the input, and it stands there after the same
    [NPREF] words (with [NONWORD] before the first word) as it is printed
    after. *)
Theorem X11_generate_follows_input f nwords rand k w :
  g_out (generate nwords rand (build f statetab0)) !! k = Some w ->
  exists i,
    tokens f !! i = Some w /\
    drop k (start_prefix ++
            take k (g_out (generate nwords rand (build f statetab0)))) =
    drop i (start_prefix ++ take i (tokens f)).
Proof.
  intros Hk. set (out := g_out (generate nwords rand (build f statetab0))) in *.
  assert (Hok : gen_ok (tokens f) nwords (generate nwords rand (build f statetab0)))
    by apply gen_ok_run, gen_ok_init.
  assert (Hinv : gen_inv nwords (generate nwords rand (build f statetab0)))
    by apply gen_run_inv, gen_inv_init.
  destruct Hok as (_ & _ & Hcalls & _). destruct Hinv as (_ & Hnw & _).
  fold out in Hcalls, Hnw.
  pose proof (calls_from_lookup start_prefix out k w Hk) as Hc.
  apply list_elem_of_lookup_2, Hcalls, build_log_elem in Hc as (i & Hi & Hwin & Hx).
  assert (Hw : w <> NONWORD).
  { intros ->. apply Hnw. by eapply list_elem_of_lookup_2. }
  destruct (decide (i = length (tokens f))) as [->|Hne].
  { rewrite list_lookup_middle in Hx by done. congruence. }
  rewrite lookup_app_l in Hx by lia.
  exists i. split; [done|].
  rewrite fold_slide_drop in Hwin by done.
  rewrite window_at_slide, fold_slide_drop in Hwin by done.
  pose proof (lookup_lt_Some _ _ _ Hk). pose proof (lookup_lt_Some _ _ _ Hx).
  by rewrite !length_take, !Nat.min_l in Hwin by lia.
Qed.

Lemma X11_generate_follows_input_witness :
  exists i,
    tokens (file_of "a b a c") !! i = Some "b"%string /\
    drop 1 (start_prefix ++
            take 1 (g_out (generate 3 (fun _ => 1%nat)
                             (build (file_of "a b a c") statetab0)))) =
    drop i (start_prefix ++ take i (tokens (file_of "a b a c"))).
Proof.
  apply (X11_generate_follows_input (file_of "a b a c") 3 (fun _ => 1%nat) 1).
  vm_compute. reflexivity.
Defined.

(** X12. Why [generate] stops on a table left by [build]: never for a
    missing node and never for an empty suffix list. Either the loop ran
    to its bound, and then exactly [nwords] words were printed (none for
    a negative [nwords]); or it drew the sentinel, and then fewer than
    [nwords] words were printed and the last [NPREF] of them (with
    [NONWORD] before the first) are the last [NPREF] words of the input. *)
Theorem X12_generate_stop_reason f nwords rand :
  (g_status (generate nwords rand (build f statetab0)) = StoppedByLengthLimit /\
   Z.of_nat (length (g_out (generate nwords rand (build f statetab0))))
     = Z.max 0 nwords)
  \/
  (g_status (generate nwords rand (build f statetab0)) = StoppedBySentinel /\
   Z.of_nat (length (g_out (generate nwords rand (build f statetab0))))
     < nwords /\
   drop (length (g_out (generate nwords rand (build f statetab0))))
        (start_prefix ++ g_out (generate nwords rand (build f statetab0)))
   = drop (length (tokens f)) (start_prefix ++ tokens f)).
Proof.
  set (s := generate nwords rand (build f statetab0)).
  assert (Hok : gen_ok (tokens f) nwords s) by apply gen_ok_run, gen_ok_init.
  assert (Hinv : gen_inv nwords s) by apply gen_run_inv, gen_inv_init.
  pose proof (generate_stops nwords rand (build f statetab0)) as Hstop.
  fold s in Hstop.
  destruct Hok as (Hpre & _ & _ & Hm & He & Hsen & Hlim).
  destruct Hinv as (Hlen & _ & Hst).
  destruct (g_status s) eqn:E; try done.
  - right. split; [done|]. split; [lia|].
    rewrite <- fold_slide_drop, <- Hpre, (Hsen eq_refl) by done.
    rewrite window_at_slide, fold_slide_drop by done.
    by rewrite firstn_all.
  - left. split; [done|]. specialize (Hlim eq_refl). lia.
Qed.

Lemma gen_step_nwords tab n1 n2 rand s :
  g_i s < n1 -> g_i s < n2 ->
  gen_step tab n1 rand s = gen_step tab n2 rand s.
Proof.
  intros H1 H2. unfold gen_step.
  destruct (Z.ltb_spec (g_i s) n1); [|lia].
  destruct (Z.ltb_spec (g_i s) n2); [|lia]. done.
Qed.

Lemma gen_run_mono fuel tab n1 n2 rand s :
  n1 <= n2 ->
  g_out (gen_run fuel tab n1 rand s) `prefix_of`
  g_out (gen_run fuel tab n2 rand s).
Proof.
  intros Hn. revert s. induction fuel as [|fuel IH]; intros s; [done|].
  cbn [gen_run]. destruct (g_status s) eqn:E; try done.
  destruct (Z.lt_ge_cases (g_i s) n1) as [Hi|Hi].
  - rewrite (gen_step_nwords tab n1 n2) by lia. apply IH.
  - destruct (gen_step_cases tab n1 rand s) as [[_ ->]|[Hi' _]]; [|lia].
    rewrite gen_run_stopped by done. simpl.
    destruct (gen_run_out (S fuel) tab n2 rand s) as [rest Hr].
    cbn [gen_run] in Hr. rewrite E in Hr. by exists rest.
Qed.

(** X13. Asking for more words only extends the text: with the same table
    and the same draws, what [generate] prints for [n1] words is the
    beginning of what it prints for any [n2 >= n1]. *)
Theorem X13_generate_monotone tab n1 n2 rand :
  n1 <= n2 ->
  g_out (generate n1 rand tab) `prefix_of` g_out (generate n2 rand tab).
Proof.
  intros Hn. rewrite <- (generate_fuel (S (Z.to_nat n2)) n1) by lia.
  by apply gen_run_mono.
Qed.

Lemma X13_generate_monotone_witness :
  g_out (generate 2 (fun k => k) (build (file_of "a b a c a b a") statetab0))
  `prefix_of`
  g_out (generate 5 (fun k => k) (build (file_of "a b a c a b a") statetab0)).
Proof. apply X13_generate_monotone. discriminate. Defined.

(** ** Looking up what build stored *)

(** X14. Reading the table left by [build]: for a window [build] has
    seen, the non-creating [lookup] finds the words read under it, latest
    first; for any other prefix of [NPREF] words it returns [NULL]. *)
Theorem X14_build_then_lookup f p :
  length p = NPREF ->
  ((exists i, (i <= length (tokens f))%nat /\ p = window_at (tokens f) i) ->
     bag_of (build f statetab0) p =
       Some (rev (recorded p (build_log (tokens f))))) /\
  ((forall i, (i <= length (tokens f))%nat -> p <> window_at (tokens f) i) ->
     (lookup p false (build f statetab0)).1 = None).
Proof.
  intros Hp. split.
  - intros Hi. by apply bag_of_build, build_log_windows.
  - intros Hnot. pose proof (build_rep f) as [Hok Hsufs _].
    destruct (lookup_cases p false (build f statetab0) Hok Hp)
      as [(ptr & sp & _ & Hg & E)|[_ ->]]; [|done].
    destruct (Hsufs sp) as [_ Hin]; [by exists ptr|].
    apply build_log_windows in Hin as (i & Hi & Ew).
    exfalso. apply (Hnot i Hi). congruence.
Qed.

Lemma X14_build_then_lookup_witness :
  bag_of (build (file_of "a b c a b d") statetab0) ["a"; "b"]%string =
  Some (rev (recorded ["a"; "b"]%string
               (build_log (tokens (file_of "a b c a b d"))))).
Proof.
  destruct (X14_build_then_lookup (file_of "a b c a b d") ["a"; "b"]%string eq_refl)
    as [H _].
  apply H. exists 2%nat. split; [vm_compute; repeat constructor|].
  vm_compute. reflexivity.
Defined.

(** ** main *)

Lemma generate_out_tokens f nwords rand w :
  w ∈ g_out (generate nwords rand (build f statetab0)) -> w ∈ tokens f.
Proof.
  intros [k Hk]%list_elem_of_lookup.
  assert (Hok : gen_ok (tokens f) nwords (generate nwords rand (build f statetab0)))
    by apply gen_ok_run, gen_ok_init.
  assert (Hinv : gen_inv nwords (generate nwords rand (build f statetab0)))
    by apply gen_run_inv, gen_inv_init.
  destruct Hok as (_ & _ & Hcalls & _). destruct Hinv as (_ & Hnw & _).
  pose proof (calls_from_lookup start_prefix _ k w Hk) as Hc.
  apply list_elem_of_lookup_2, Hcalls, build_log_elem in Hc as (i & Hi & _ & Hx).
  destruct (decide (i = length (tokens f))) as [->|Hne].
  - rewrite list_lookup_middle in Hx by done. injection Hx as <-.
    exfalso. apply Hnw. by eapply list_elem_of_lookup_2.
  - rewrite lookup_app_l in Hx by lia. by eapply list_elem_of_lookup_2.
Qed.

(** X15. The program as a whole. [main] returns 0 exactly when a file
    argument is given and the file opens; otherwise it returns 1 and
    writes nothing to the standard output. When it returns 0 it writes
    nothing to the standard error, and the standard output is the text of
    a list of words, each followed by a space, and a final newline: at
    most [nwords] words (100 when no count is given, none for a count
    below 1), every one of them a word of the file. *)
Theorem X15_main atoi fopen_r strerror time_now rand_after_srand argv :
  (exit_status (main atoi fopen_r strerror time_now rand_after_srand argv) = 0
   <-> (2 <= length argv)%nat /\ is_Some (fopen_r (word_at argv 1))) /\
  (exit_status (main atoi fopen_r strerror time_now rand_after_srand argv) <> 0 ->
   exit_status (main atoi fopen_r strerror time_now rand_after_srand argv) = 1 /\
   out_stream (main atoi fopen_r strerror time_now rand_after_srand argv)
     = EmptyString) /\
  (exit_status (main atoi fopen_r strerror time_now rand_after_srand argv) = 0 ->
   exists f out,
     fopen_r (word_at argv 1) = Some f /\
     out_stream (main atoi fopen_r strerror time_now rand_after_srand argv)
       = stdout_text out /\
     err_stream (main atoi fopen_r strerror time_now rand_after_srand argv)
       = EmptyString /\
     Z.of_nat (length out) <=
       Z.max 0 (if (3 <=? length argv)%nat then atoi (word_at argv 2) else 100) /\
     forall w, w ∈ out -> w ∈ tokens f).
Proof.
  unfold main. destruct (Nat.ltb_spec (length argv) 2) as [Hc|Hc];
    cbn [exit_status out_stream err_stream].
  { split; [|split]; [|done|done]. split; [done|]. intros [? _]. lia. }
  destruct (fopen_r (word_at argv 1)) as [f|] eqn:Ef;
    cbn [exit_status out_stream err_stream].
  - split; [|split]; [by split; [|]|done|]. intros _.
    set (n := if (3 <=? length argv)%nat then atoi (word_at argv 2) else 100).
    set (s := generate n (rand_after_srand (time_now mod UINT_MOD))
                (build f statetab0)).
    exists f, (g_out s). split; [done|]. split; [done|]. split; [done|]. split.
    + assert (Hinv : gen_inv n s) by apply gen_run_inv, gen_inv_init.
      clearbody s n. destruct Hinv as (Hlen & _ & Hst). rewrite Hlen.
      destruct (g_status s); lia.
    + intros w. apply generate_out_tokens.
  - split; [|split]; [|done|done]. split; [done|]. by intros [_ [? ?]].
Qed.

Lemma X15_main_witness :
  exit_status
    (main (fun _ => 3) (fun _ => Some (file_of "a b c")) (fun _ => EmptyString)
          0 (fun _ k => k) ["prog"; "in.txt"]%string) = 0.
Proof.
  apply (X15_main (fun _ => 3) (fun _ => Some (file_of "a b c"))
           (fun _ => EmptyString) 0 (fun _ k => k) ["prog"; "in.txt"]%string).
  split; [simpl; lia|]. by eexists.
Defined.

(** ** Inputs in which no window repeats *)

Lemma recorded_unique calls i p w :
  NoDup calls.*1 -> calls !! i = Some (p, w) -> recorded p calls = [w].
Proof.
  revert i. induction calls as [|[q t] calls IH]; intros i Hnd Hi; [done|].
  cbn [fmap list_fmap fst] in Hnd. apply NoDup_cons in Hnd as [Hq Hnd].
  rewrite recorded_cons. destruct i as [|i]; simpl in Hi.
  - injection Hi as -> ->. rewrite decide_True by done.
    by rewrite recorded_absent.
  - rewrite decide_False; [by eapply IH|]. intros ->. apply Hq.
    apply list_elem_of_fmap. exists (p, w). split; [done|].
    by eapply list_elem_of_lookup_2.
Qed.

(** A pass of the loop when the window has a single suffix [w]. *)
Lemma gen_step_single tab nwords rand s w :
  bag_of tab (g_prefix s) = Some [w] -> g_i s < nwords ->
  gen_step tab nwords rand s =
  if decide (w = NONWORD) then sentinel_state s else emit_state s w.
Proof.
  intros Hbag Hn.
  assert (Hd : forall ptr,
    (lookup (g_prefix s) false tab).1 = Some ptr ->
    suffixes_at tab ptr = [w] /\ drawn tab rand s ptr = w).
  { intros ptr Hl. pose proof (suffixes_at_bag _ _ _ _ Hl Hbag) as Hs.
    split; [done|]. unfold drawn. rewrite Hs. simpl length.
    by rewrite Nat.mod_1_r. }
  destruct (gen_step_cases tab nwords rand s)
    as [[Hi _]|[_ [[Hl _]|(ptr & Hl & [[He _]|[_ [[Hw ->]|[Hw ->]]]])]]].
  - lia.
  - apply bag_of_lookup in Hbag as [ptr Hp]. congruence.
  - destruct (Hd ptr Hl) as [Hs _]. congruence.
  - destruct (Hd ptr Hl) as [_ Hw']. rewrite decide_True by congruence. done.
  - destruct (Hd ptr Hl) as [_ Hw']. rewrite decide_False by congruence.
    by rewrite Hw'.
Qed.

Lemma gen_run_follow f nwords rand fuel k s :
  NoDup (build_log (tokens f)).*1 ->
  (k <= length (tokens f))%nat -> Z.of_nat k <= Z.max 0 nwords ->
  g_out s = take k (tokens f) -> g_prefix s = window_at (tokens f) k ->
  g_i s = Z.of_nat k -> g_status s = Running ->
  (Z.to_nat nwords - k < fuel)%nat ->
  g_out (gen_run fuel (build f statetab0) nwords rand s) =
  take (Z.to_nat nwords) (tokens f).
Proof.
  intros Hnd. revert k s.
  induction fuel as [|fuel IH]; intros k s Hk Hkn Hout Hpre Hi Hrun Hfuel; [lia|].
  cbn [gen_run]. rewrite Hrun.
  destruct (Z.lt_ge_cases (g_i s) nwords) as [Hlt|Hge].
  - destruct (lookup_lt_is_Some_2 (tokens f ++ [NONWORD]) k) as [w Hw].
    { rewrite length_app. simpl. lia. }
    pose proof (build_log_lookup _ _ _ Hw) as Hlog.
    assert (Hbag : bag_of (build f statetab0) (g_prefix s) = Some [w]).
    { rewrite Hpre, bag_of_build.
      - by rewrite (recorded_unique _ _ _ _ Hnd Hlog).
      - apply build_log_windows. by exists k. }
    rewrite (gen_step_single _ _ _ _ w Hbag Hlt).
    destruct (decide (k = length (tokens f))) as [->|Hne].
    + rewrite list_lookup_middle in Hw by done. injection Hw as <-.
      rewrite decide_True by done. rewrite gen_run_stopped by done.
      simpl. rewrite Hout, !take_ge by lia. done.
    + rewrite lookup_app_l in Hw by lia.
      pose proof (tokens_not_NONWORD f) as Hnw. rewrite Forall_forall in Hnw.
      rewrite decide_False by (apply Hnw; by eapply list_elem_of_lookup_2).
      apply (IH (S k)); cbn [emit_state g_out g_prefix g_i g_status];
        try done; try lia.
      * rewrite Hout. symmetry. by apply take_S_r.
      * rewrite emit_prefix_slide by (rewrite Hpre; apply window_at_length).
        rewrite Hpre. by apply window_at_S.
  - destruct (gen_step_cases (build f statetab0) nwords rand s)
      as [[_ ->]|[Hi' _]]; [|lia].
    rewrite gen_run_stopped by done. simpl. rewrite Hout. f_equal. lia.
Qed.

(** X16. An input in which no window of [NPREF] words occurs twice is
    reproduced: whatever the draws, [generate] prints the first [nwords]
    words of the input, and all of them when [nwords] exceeds their
    number. *)
Theorem X16_generate_reproduces f nwords rand :
  NoDup (window_at (tokens f) <$> seq 0 (S (length (tokens f)))) ->
  g_out (generate nwords rand (build f statetab0)) =
  take (Z.to_nat nwords) (tokens f).
Proof.
  intros Hnd. rewrite <- build_log_fst in Hnd. unfold generate.
  apply (gen_run_follow f nwords rand _ O); try done; simpl; lia.
Qed.

Lemma X16_generate_reproduces_witness :
  g_out (generate 4 (fun k => k)
           (build (file_of "the quick fox the lazy fox") statetab0)) =
  take 4 (tokens (file_of "the quick fox the lazy fox")).
Proof.
  apply (X16_generate_reproduces (file_of "the quick fox the lazy fox") 4).
  refine (bool_decide_unpack _ _). vm_compute. exact I.
Defined.
